(** * Hexapod web controller: command slot, motion worker and stop gate

    A shallow embedding of [hexweb7.py]: the shared state of the Flask
    process, the movement worker thread, the request handlers that write the
    command slot, the STOP-ALL gate around [set_servo_angle], and the LED,
    buzzer and preset sequencer threads.

    Python integers are unbounded, so they are [Z].  Command names, keys and
    preset names are Python strings and stay strings here.  Every call made on
    a hardware object ([ctrl], [ctrl.servo], [led], [buzzer]) is appended to a
    trace kept next to the shared state, so that statements about "which
    calls were issued" are statements about that list.

    Threads interleave at the granularity of the critical sections delimited
    by [with lock] and of the single statements outside them.  The
    [finally] block of the main program is not modelled. *)

From Stdlib Require Import ZArith String List Lia Bool.
From stdpp Require Import base gmap strings list.

Open Scope string_scope.
Open Scope Z_scope.
Open Scope list_scope.

(** ** Constants of the module *)

Definition TABLETOP_Z : Z := 40.
Definition RESET_Z : Z := 15.
Definition MAX_Z : Z := 45.
Definition MIN_Z : Z := -30.

Definition PAN_PORT : Z := 24.
Definition TILT_PORT : Z := 25.

(** What the two JSON files contribute: the pan/tilt limits (0, 180, 0, 180
    when [pan_tilt_limits.json] is absent) and the per-port offsets (empty
    when [servo_offsets.json] is absent). *)
Record Config := {
  PAN_MIN : Z;
  PAN_MAX : Z;
  TILT_MIN : Z;
  TILT_MAX : Z;
  OFFSETS : gmap Z Z
}.

Definition default_config : Config :=
  {| PAN_MIN := 0; PAN_MAX := 180; TILT_MIN := 0; TILT_MAX := 180; OFFSETS := ∅ |}.

(** [clamp(v, lo, hi) = max(lo, min(hi, v))] *)
Definition clamp (v lo hi : Z) : Z := Z.max lo (Z.min hi v).

(** ** Hardware calls *)

(** LED colours.  [led_breathe] and [led_rainbow] compute their colours in
    floating point; those triples are kept symbolic. *)
Inductive color :=
| Rgb (r g b : Z)
| Scaled (r g b lvl : Z)     (* [int(r*scale), int(g*scale), int(b*scale)], scale = lvl/20.0 *)
| Hue (k steps : nat).       (* hsv_to_rgb(k / float(steps)) *)

Inductive hwcall :=
| RunGait (data : list string)          (* state.ctrl.run_gait(data) *)
| MovePosition (x y z : Z)              (* state.ctrl.move_position(x, y, z) *)
| SetServoAngle (channel angle : Z)     (* _orig_set_servo_angle(channel, angle) *)
| Relax                                 (* state.ctrl.servo.relax() *)
| ColorWipe (c : color)                 (* state.led.color_wipe(...) *)
| BuzzerSetState (on : bool).           (* state.buzzer.set_state(on) *)

(** ** Shared state *)

(** The fields of [WebState] that the handlers and the worker use, the module
    global [STOP_ALL], and the trace [hw] of hardware calls issued so far
    (oldest first). *)
Record Store := {
  body_z : Z;
  pan_angle : Z;
  tilt_angle : Z;
  current_cmd : option string;
  thread_running : bool;
  active_preset : option string;
  STOP_ALL : bool;
  hw : list hwcall
}.

Definition set_body_z (z : Z) (s : Store) : Store :=
  {| body_z := z; pan_angle := pan_angle s; tilt_angle := tilt_angle s;
     current_cmd := current_cmd s; thread_running := thread_running s;
     active_preset := active_preset s; STOP_ALL := STOP_ALL s; hw := hw s |}.

Definition set_pan_angle (p : Z) (s : Store) : Store :=
  {| body_z := body_z s; pan_angle := p; tilt_angle := tilt_angle s;
     current_cmd := current_cmd s; thread_running := thread_running s;
     active_preset := active_preset s; STOP_ALL := STOP_ALL s; hw := hw s |}.

Definition set_tilt_angle (t : Z) (s : Store) : Store :=
  {| body_z := body_z s; pan_angle := pan_angle s; tilt_angle := t;
     current_cmd := current_cmd s; thread_running := thread_running s;
     active_preset := active_preset s; STOP_ALL := STOP_ALL s; hw := hw s |}.

Definition set_current_cmd (c : option string) (s : Store) : Store :=
  {| body_z := body_z s; pan_angle := pan_angle s; tilt_angle := tilt_angle s;
     current_cmd := c; thread_running := thread_running s;
     active_preset := active_preset s; STOP_ALL := STOP_ALL s; hw := hw s |}.

Definition set_active_preset (p : option string) (s : Store) : Store :=
  {| body_z := body_z s; pan_angle := pan_angle s; tilt_angle := tilt_angle s;
     current_cmd := current_cmd s; thread_running := thread_running s;
     active_preset := p; STOP_ALL := STOP_ALL s; hw := hw s |}.

Definition set_STOP_ALL (b : bool) (s : Store) : Store :=
  {| body_z := body_z s; pan_angle := pan_angle s; tilt_angle := tilt_angle s;
     current_cmd := current_cmd s; thread_running := thread_running s;
     active_preset := active_preset s; STOP_ALL := b; hw := hw s |}.

(** Issue one hardware call: it is appended to the trace. *)
Definition call (c : hwcall) (s : Store) : Store :=
  {| body_z := body_z s; pan_angle := pan_angle s; tilt_angle := tilt_angle s;
     current_cmd := current_cmd s; thread_running := thread_running s;
     active_preset := active_preset s; STOP_ALL := STOP_ALL s; hw := hw s ++ [c] |}.

(** ** The STOP-ALL gate

    [state.ctrl.servo.set_servo_angle] is rebound to this function once
    [state] exists, so every later call through that attribute lands here. *)
Definition guarded_set_servo_angle (channel angle : Z) (s : Store) : Store :=
  if STOP_ALL s then s else call (SetServoAngle channel angle) s.

(** ** Movement worker *)

(** A hardware call of the worker may raise.  The oracle [raises] says whether
    the call made in the current step does; the call is on the trace either
    way, and the flag reports the exception to the caller. *)
Definition hw_try (raises : bool) (c : hwcall) (s : Store) : Store * bool :=
  (call c s, raises).

(** The [if cmd == ... elif ...] chain of [movement_worker].  For the height
    commands the locked update of [body_z] and the following
    [move_position] are one step here: only the worker writes [body_z]. *)
Definition run_action (raises : bool) (cmd : string) (s : Store) : Store * bool :=
  if String.eqb cmd "fwd" then
    hw_try raises (RunGait ["CMD_MOVE"; "1"; "0"; "35"; "10"; "0"]) s
  else if String.eqb cmd "back" then
    hw_try raises (RunGait ["CMD_MOVE"; "2"; "0"; "-35"; "10"; "10"]) s
  else if String.eqb cmd "right" then
    hw_try raises (RunGait ["CMD_MOVE"; "1"; "35"; "0"; "10"; "0"]) s
  else if String.eqb cmd "left" then
    hw_try raises (RunGait ["CMD_MOVE"; "1"; "-35"; "0"; "10"; "0"]) s
  else if String.eqb cmd "turn_left" then
    hw_try raises (RunGait ["CMD_MOVE"; "1"; "0"; "0"; "10"; "20"]) s
  else if String.eqb cmd "turn_right" then
    hw_try raises (RunGait ["CMD_MOVE"; "1"; "0"; "0"; "10"; "-20"]) s
  else if String.eqb cmd "raise" then
    let z := clamp (body_z s + 2) MIN_Z MAX_Z in
    hw_try raises (MovePosition 0 0 z) (set_body_z z s)
  else if String.eqb cmd "lower" then
    let z := clamp (body_z s - 2) MIN_Z MAX_Z in
    hw_try raises (MovePosition 0 0 z) (set_body_z z s)
  else if String.eqb cmd "tabletop" then
    let s1 := set_body_z (clamp TABLETOP_Z MIN_Z MAX_Z) s in
    hw_try raises (MovePosition 0 0 (body_z s1)) s1
  else if String.eqb cmd "reset" then
    let s1 := set_body_z (clamp RESET_Z MIN_Z MAX_Z) s in
    hw_try raises (MovePosition 0 0 (body_z s1)) s1
  else (s, false).

(** Where the worker thread stands. *)
Inductive wphase :=
| AtLoop                    (* at [while state.thread_running] *)
| Holding (cmd : string)    (* past the first critical section, local [cmd] not None *)
| Clearing (cmd : string)   (* action done, before the last critical section *)
| Exited                    (* the loop condition was false *)
| Died.                     (* an exception left [movement_worker] *)

(** [state.current_cmd == cmd] for a local [cmd] that is a string. *)
Definition slot_is (cmd : string) (s : Store) : bool :=
  match current_cmd s with
  | Some c => String.eqb c cmd
  | None => false
  end.

(** One step of the worker thread.  The function has no [try]: an exception
    raised by a hardware call leaves [movement_worker]. *)
Definition worker_step (raises : bool) (s : Store) (w : wphase) : Store * wphase :=
  match w with
  | AtLoop =>
      if negb (thread_running s) then (s, Exited)
      else if STOP_ALL s then
        let '(s1, exn) := hw_try raises Relax s in
        if exn then (s1, Died) else (set_current_cmd None s1, AtLoop)
      else
        match current_cmd s with
        | None => (s, AtLoop)
        | Some cmd => (s, Holding cmd)
        end
  | Holding cmd =>
      let '(s1, exn) := run_action raises cmd s in
      (s1, if exn then Died else Clearing cmd)
  | Clearing cmd =>
      (if slot_is cmd s then set_current_cmd None s else s, AtLoop)
  | Exited => (s, Exited)
  | Died => (s, Died)
  end.

(** One whole pass through the loop body with no other thread in between and
    no hardware failure. *)
Definition tick (s : Store) : Store * wphase :=
  match worker_step false s AtLoop with
  | (s1, Holding cmd) =>
      let '(s2, w2) := worker_step false s1 (Holding cmd) in
      worker_step false s2 w2
  | r => r
  end.

Fixpoint ticks (n : nat) (s : Store) : Store :=
  match n with
  | O => s
  | S n' => ticks n' (fst (tick s))
  end.

(** ** Request handlers *)

Record response := {
  ok : bool;
  message : string;
  status : Z
}.

Definition map_key_to_cmd (key : string) : option string * string :=
  if String.eqb key "w" then (Some "fwd", "Forward")
  else if String.eqb key "s" then (Some "back", "Backward")
  else if String.eqb key "d" then (Some "right", "Right")
  else if String.eqb key "a" then (Some "left", "Left")
  else if String.eqb key "j" then (Some "turn_left", "Turn Left")
  else if String.eqb key "l" then (Some "turn_right", "Turn Right")
  else if String.eqb key "i" then (Some "raise", "Raise body")
  else if String.eqb key "k" then (Some "lower", "Lower body")
  else if String.eqb key "t" then (Some "tabletop", "Tabletop pose")
  else if String.eqb key "r" then (Some "reset", "Reset pose")
  else (None, "Unknown hexapod command").

(** [/cmd].  [key] is the local of that name, i.e. the query argument after
    [.lower()]. *)
Definition cmd_route (key : string) (s : Store) : Store * response :=
  let s1 := set_STOP_ALL false s in
  match map_key_to_cmd key with
  | (Some cmd, msg) =>
      (set_current_cmd (Some cmd) s1, {| ok := true; message := msg; status := 200 |})
  | (None, _) =>
      (s1, {| ok := true; message := "Unknown hexapod command"; status := 200 |})
  end.

(** [/stopall] *)
Definition stopall_route (s : Store) : Store * response :=
  let s1 := set_STOP_ALL true s in
  let s2 := call Relax s1 in
  let s3 := set_current_cmd None s2 in
  let s4 := set_active_preset None s3 in
  (s4, {| ok := true; message := "All servos relaxed (legs + pan/tilt)"; status := 200 |}).

(** ** Sensors *)

(** What a driver call does: it returns a value or raises, [e] being the text
    of the exception. *)
Inductive outcome (A : Type) :=
| Returned (a : A)
| Raised (e : string).

Arguments Returned {A} a.
Arguments Raised {A} e.

(** What [read_battery_voltage] and [get_distance] may return: a number, or a
    list or tuple of numbers.  [num] stands for the Python floats. *)
Inductive raw (num : Type) :=
| Scalar (v : num)
| PyList (items : list num)
| PyTuple (items : list num).

Arguments Scalar {num} v.
Arguments PyList {num} items.
Arguments PyTuple {num} items.

(** The body of one inner [try]: the driver call, [raw = raw[0]] for a list
    or tuple, then [float(raw)]. *)
Definition read_value {num : Type} (r : outcome (raw num)) : outcome num :=
  match r with
  | Raised e => Raised e
  | Returned (Scalar v) => Returned v
  | Returned (PyList (v :: _)) => Returned v
  | Returned (PyList []) => Raised "list index out of range"
  | Returned (PyTuple (v :: _)) => Returned v
  | Returned (PyTuple []) => Raised "tuple index out of range"
  end.

(** The JSON body of [/sensors] and its status code; a key that the body does
    not have is [None]. *)
Record sensors_reply (num : Type) := {
  sensors_ok : bool;
  battery : option num;
  distance : option num;
  error : option string;
  sensors_status : Z
}.

Arguments sensors_ok {num} _.
Arguments battery {num} _.
Arguments distance {num} _.
Arguments error {num} _.
Arguments sensors_status {num} _.

(** [/sensors], as a function of what the two driver calls do. *)
Definition sensors_route {num : Type} (bat dist : outcome (raw num)) : sensors_reply num :=
  let '(bat_val, err_msg) :=
    match read_value bat with
    | Returned v => (Some v, None)
    | Raised e => (None, Some (String.append "Battery read error: " e))
    end in
  let '(dist_val, err_msg) :=
    match read_value dist with
    | Returned v => (Some v, err_msg)
    | Raised e =>
        (None,
         match err_msg with
         | Some m => Some (String.append m (String.append " | Ultrasonic read error: " e))
         | None => Some (String.append "Ultrasonic read error: " e)
         end)
    end in
  match err_msg with
  | Some m =>
      {| sensors_ok := false; battery := bat_val; distance := dist_val;
         error := Some m; sensors_status := 200 |}
  | None =>
      {| sensors_ok := true; battery := bat_val; distance := dist_val;
         error := None; sensors_status := 200 |}
  end.

(** ** Sequencer threads

    The LED, buzzer and preset helpers start daemon threads whose bodies are
    straight-line scripts with [for] loops that test [STOP_ALL] at the top of
    an iteration.  A thread is its remaining script; the loops are unrolled
    and [if STOP_ALL: break] becomes a conditional jump past the rest of its
    loop.  A call of one of the helpers is one instruction of its caller: a
    locked LED or buzzer call, or the start of a thread. *)
#[local] Set Warnings "-register-all".

Inductive instr :=
| ISleep (ms : Z)                      (* time.sleep, in milliseconds *)
| ILed (c : color)                     (* led_solid / led_off: locked color_wipe *)
| IBuzzer (on : bool)                  (* locked state.buzzer.set_state *)
| ISetCmd (cmd : string)               (* set_cmd inside run_preset *)
| IPtTo (pan tilt : option Z)          (* pt_to inside run_preset *)
| ISpawn (body : list instr)           (* threading.Thread(target=..., daemon=True).start() *)
| IBreakIf (n : nat)                   (* if STOP_ALL: break, the loop having n instructions left *)
| IClearPreset.                        (* finally: state.active_preset = None *)

(** [for ...: if STOP_ALL: break; body], one body per iteration. *)
Fixpoint for_break (bodies : list (list instr)) : list instr :=
  match bodies with
  | [] => []
  | b :: rest =>
      let tl := for_break rest in
      IBreakIf (length b + length tl) :: b ++ tl
  end.

Definition led_off : instr := ILed (Rgb 0 0 0).
Definition led_solid (r g b : Z) : instr := ILed (Rgb r g b).

Definition _run_buzzer (ms : Z) : list instr :=
  [IBuzzer true; ISleep ms; IBuzzer false].
Definition buzzer_pulse (ms : Z) : instr := ISpawn (_run_buzzer ms).

Definition _blink (r g b : Z) (times : nat) (on_t off_t : Z) : list instr :=
  for_break (replicate times [led_solid r g b; ISleep on_t; led_off; ISleep off_t]).
Definition led_blink (r g b : Z) : instr := ISpawn (_blink r g b 3 200 150).

(** [list(range(0, 21)) + list(range(20, -1, -1))] *)
Definition breathe_seq : list Z := seqZ 0 21 ++ rev (seqZ 0 21).

Definition _breathe (r g b : Z) (cycles : nat) : list instr :=
  for_break (replicate cycles
    (for_break (map (fun lvl => [ILed (Scaled r g b lvl); ISleep 60]) breathe_seq)))
  ++ [led_off].
Definition led_breathe (r g b : Z) (cycles : nat) : instr := ISpawn (_breathe r g b cycles).

Definition _police (cycles : nat) : list instr :=
  for_break (replicate cycles
    [led_solid 255 0 0; ISleep 120; led_off; ISleep 50;
     led_solid 0 0 255; ISleep 120; led_off; ISleep 50])
  ++ [led_off].
Definition led_police : instr := ISpawn (_police 6).

(** The outer [for _ in range(cycles)] of [_rainbow] has no test of its own. *)
Definition _rainbow (cycles steps : nat) : list instr :=
  concat (replicate cycles
    (for_break (map (fun k => [ILed (Hue k steps); ISleep 50]) (seq 0 steps))))
  ++ [led_off].
Definition led_rainbow : instr := ISpawn (_rainbow 1 60).

(** [mode] is the local after [(mode or "solid").lower()]. *)
Definition led_set (mode : string) (r g b : Z) : instr :=
  if String.eqb mode "off" then led_off
  else if String.eqb mode "solid" then led_solid r g b
  else if String.eqb mode "blink" then led_blink r g b
  else if String.eqb mode "breathe" then led_breathe r g b 2
  else if String.eqb mode "police" then led_police
  else if String.eqb mode "rainbow" then led_rainbow
  else led_solid r g b.

Definition demo1 : list instr :=
  [led_set "solid" 0 200 255; ISetCmd "raise"; ISleep 600]
  ++ for_break (map (fun step : nat =>
       [ISetCmd "fwd"; ISleep 600;
        IPtTo (Some 60) None; ISleep 300;
        IPtTo (Some 120) None; ISleep 300]
       ++ (if orb (Nat.eqb step 1) (Nat.eqb step 3) then [buzzer_pulse 100] else []))
       (seq 0 4))
  ++ [IPtTo (Some 90) (Some 90); ISetCmd "reset"; ISleep 800; led_breathe 0 200 255 1].

Definition demo2 : list instr :=
  [led_set "solid" 255 50 50; ISetCmd "tabletop"; ISleep 1000]
  ++ for_break (replicate 3
       ([ISetCmd "turn_left"; ISleep 700]
        ++ for_break (map (fun p => [IPtTo (Some p) None; ISleep 300]) [60; 120; 90])
        ++ [buzzer_pulse 80]))
  ++ [ISetCmd "reset"; ISleep 800; led_breathe 255 50 50 1].

Definition demo3 : list instr :=
  [led_set "rainbow" 255 255 255; ISetCmd "raise"; ISleep 600]
  ++ for_break (map (fun cmd => [ISetCmd cmd; ISleep 700])
       ["fwd"; "right"; "back"; "left"; "turn_left"; "turn_right"])
  ++ for_break (replicate 3 [buzzer_pulse 70; ISleep 150])
  ++ [ISetCmd "reset"; ISleep 800; led_off].

(** Body of the thread started by [run_preset(name)]: the [try] block, then
    the [finally]. *)
Definition _run (name : string) : list instr :=
  [buzzer_pulse 150; ISleep 100]
  ++ (if String.eqb name "demo1" then demo1
      else if String.eqb name "demo2" then demo2
      else if String.eqb name "demo3" then demo3
      else [])
  ++ [IClearPreset].

(** A sequencer thread: the servo writes it still owes from the [pt_to] it is
    in (made outside the lock, from the locals [p] and [t]), then the rest of
    its script. *)
Record task := {
  writes : list (Z * Z);
  script : list instr
}.

Definition thread (body : list instr) : task := {| writes := []; script := body |}.

Inductive event :=
| CmdReq (key : string)                 (* GET /cmd?key= *)
| StopAllReq                            (* GET /stopall *)
| PanTiltReq (cmd : string) (step : Z)  (* POST /pt *)
| LedReq (mode : string) (r g b : Z)    (* POST /led *)
| BuzzerReq (mode : string)             (* POST /buzzer *)
| PresetReq (name : string)             (* POST /preset *)
| WorkerStep (raises : bool)            (* the worker thread moves *)
| TaskStep (i : nat).                   (* sequencer thread number i moves *)

Record System := {
  store : Store;
  worker : wphase;
  tasks : list task
}.

Section Hexweb.

Context (cfg : Config).

Definition with_offset (port angle : Z) : Z :=
  let off := default 0 (OFFSETS cfg !! port) in
  let a := angle + off in
  let a := if a <? 0 then 0 else a in
  let a := if 180 <? a then 180 else a in
  a.

(** [WebState()] followed by the module-level [STOP_ALL = False].  The three
    calls of the constructor are made before [set_servo_angle] is rebound. *)
Definition init_store : Store :=
  {| body_z := RESET_Z; pan_angle := 90; tilt_angle := 90;
     current_cmd := None; thread_running := true; active_preset := None;
     STOP_ALL := false;
     hw := [MovePosition 0 0 RESET_Z;
            SetServoAngle PAN_PORT (with_offset PAN_PORT 90);
            SetServoAngle TILT_PORT (with_offset TILT_PORT 90)] |}.

(** The inner [_clamp] of [handle_pan_tilt]; [int(v)] is the identity on
    integers. *)
Definition _clamp (v lo hi : Z) : Z := Z.max lo (Z.min hi v).

(** The tail of [handle_pan_tilt] shared by every branch but ["relax"]. *)
Definition pan_tilt_apply (pan tilt : Z) (s : Store) : Store * (Z * Z) :=
  let s1 := set_tilt_angle tilt (set_pan_angle pan s) in
  let s2 := guarded_set_servo_angle PAN_PORT (with_offset PAN_PORT pan) s1 in
  let s3 := guarded_set_servo_angle TILT_PORT (with_offset TILT_PORT tilt) s2 in
  (s3, (pan, tilt)).

Definition handle_pan_tilt (cmd : string) (step : Z) (s : Store) : Store * (Z * Z) :=
  let pan := pan_angle s in
  let tilt := tilt_angle s in
  if String.eqb cmd "center" then pan_tilt_apply 90 90 s
  else if String.eqb cmd "relax" then
    (set_tilt_angle tilt (set_pan_angle pan (call Relax s)), (pan, tilt))
  else if String.eqb cmd "pan_left" then
    pan_tilt_apply (_clamp (pan - step) (PAN_MIN cfg) (PAN_MAX cfg)) tilt s
  else if String.eqb cmd "pan_right" then
    pan_tilt_apply (_clamp (pan + step) (PAN_MIN cfg) (PAN_MAX cfg)) tilt s
  else if String.eqb cmd "tilt_up" then
    pan_tilt_apply pan (_clamp (tilt - step) (TILT_MIN cfg) (TILT_MAX cfg)) s
  else if String.eqb cmd "tilt_down" then
    pan_tilt_apply pan (_clamp (tilt + step) (TILT_MIN cfg) (TILT_MAX cfg)) s
  else pan_tilt_apply pan tilt s.

(** The locked part of [pt_to]; the two writes follow outside the lock. *)
Definition pt_to (pan tilt : option Z) (s : Store) : Store * list (Z * Z) :=
  let s1 := match pan with
            | Some p => set_pan_angle (clamp p (PAN_MIN cfg) (PAN_MAX cfg)) s
            | None => s
            end in
  let s2 := match tilt with
            | Some t => set_tilt_angle (clamp t (TILT_MIN cfg) (TILT_MAX cfg)) s1
            | None => s1
            end in
  (s2, [(PAN_PORT, with_offset PAN_PORT (pan_angle s2));
        (TILT_PORT, with_offset TILT_PORT (tilt_angle s2))]).

(** One instruction of a script: the new store, the servo writes now owed,
    the rest of the script, and the threads started. *)
Definition exec_instr (i : instr) (k : list instr) (s : Store)
  : Store * task * list task :=
  match i with
  | ISleep _ => (s, thread k, [])
  | ILed c => (call (ColorWipe c) s, thread k, [])
  | IBuzzer on => (call (BuzzerSetState on) s, thread k, [])
  | ISetCmd cmd => (set_current_cmd (Some cmd) s, thread k, [])
  | IPtTo pan tilt =>
      let '(s1, ws) := pt_to pan tilt s in
      (s1, {| writes := ws; script := k |}, [])
  | ISpawn body => (s, thread k, [thread body])
  | IBreakIf n => (s, thread (if STOP_ALL s then drop n k else k), [])
  | IClearPreset => (set_active_preset None s, thread k, [])
  end.

(** One step of a sequencer thread. *)
Definition task_step (t : task) (s : Store) : Store * task * list task :=
  match writes t with
  | (channel, angle) :: ws =>
      (guarded_set_servo_angle channel angle s,
       {| writes := ws; script := script t |}, [])
  | [] =>
      match script t with
      | [] => (s, t, [])
      | i :: k => exec_instr i k s
      end
  end.

(** The locked prologue of [run_preset]. *)
Definition run_preset (name : string) (s : Store) : Store :=
  set_STOP_ALL false (set_active_preset (Some name) s).

Definition known_preset (name : string) : bool :=
  String.eqb name "demo1" || String.eqb name "demo2" || String.eqb name "demo3".

(** [/preset].  [name] is the local after [.lower()]. *)
Definition preset_route (name : string) (sys : System) : System * response :=
  if negb (known_preset name) then
    (sys, {| ok := false; message := "Unknown preset"; status := 400 |})
  else
    ({| store := run_preset name (store sys);
        worker := worker sys;
        tasks := tasks sys ++ [thread (_run name)] |},
     {| ok := true; message := "Running " ++ name; status := 200 |}).

(** [/led]: [led_set] runs in the request thread. *)
Definition led_route (mode : string) (r g b : Z) (sys : System) : System :=
  let '(s1, _, new) := exec_instr (led_set mode r g b) [] (store sys) in
  {| store := s1; worker := worker sys; tasks := tasks sys ++ new |}.

(** [/buzzer].  [mode] is the local after [(... or "pulse").lower()]. *)
Definition buzzer_route (mode : string) (sys : System) : System * string :=
  if String.eqb mode "pulse" then
    ({| store := store sys; worker := worker sys;
        tasks := tasks sys ++ [thread (_run_buzzer 200)] |}, "Beep pulse triggered")
  else if String.eqb mode "on" then
    ({| store := call (BuzzerSetState true) (store sys); worker := worker sys;
        tasks := tasks sys |}, "Buzzer on")
  else if String.eqb mode "off" then
    ({| store := call (BuzzerSetState false) (store sys); worker := worker sys;
        tasks := tasks sys |}, "Buzzer off")
  else (sys, "Unknown buzzer mode").

Definition with_store (s : Store) (sys : System) : System :=
  {| store := s; worker := worker sys; tasks := tasks sys |}.

(** One scheduling step of the whole process. *)
Definition step (sys : System) (ev : event) : System :=
  match ev with
  | CmdReq key => with_store (fst (cmd_route key (store sys))) sys
  | StopAllReq => with_store (fst (stopall_route (store sys))) sys
  | PanTiltReq cmd n => with_store (fst (handle_pan_tilt cmd n (store sys))) sys
  | LedReq mode r g b => led_route mode r g b sys
  | BuzzerReq mode => fst (buzzer_route mode sys)
  | PresetReq name => fst (preset_route name sys)
  | WorkerStep raises =>
      let '(s1, w1) := worker_step raises (store sys) (worker sys) in
      {| store := s1; worker := w1; tasks := tasks sys |}
  | TaskStep i =>
      match tasks sys !! i with
      | None => sys
      | Some t =>
          let '(s1, t1, new) := task_step t (store sys) in
          {| store := s1; worker := worker sys; tasks := <[i := t1]> (tasks sys) ++ new |}
      end
  end.

Definition run (evs : list event) (sys : System) : System :=
  fold_left step evs sys.

Definition init_system : System :=
  {| store := init_store; worker := AtLoop; tasks := [] |}.

End Hexweb.

(** ** Vocabulary of the statements *)

(** The commands [map_key_to_cmd] can put in the slot. *)
Definition known_cmds : list string :=
  ["fwd"; "back"; "right"; "left"; "turn_left"; "turn_right";
   "raise"; "lower"; "tabletop"; "reset"].

(** Calls that move the robot: a gait step, a pose move, a servo angle. *)
Definition motion (c : hwcall) : bool :=
  match c with
  | RunGait _ | MovePosition _ _ _ | SetServoAngle _ _ => true
  | Relax | ColorWipe _ | BuzzerSetState _ => false
  end.

Definition servo_write (c : hwcall) : bool :=
  match c with
  | SetServoAngle _ _ => true
  | _ => false
  end.

(** The angle of a servo write lies in [0, 180]. *)
Definition angle_ok (c : hwcall) : Prop :=
  match c with
  | SetServoAngle _ angle => 0 <= angle <= 180
  | _ => True
  end.

(** Requests that reach a [STOP_ALL = False] assignment: [/cmd], and
    [/preset] with a name of the registry. *)
Definition resumes (ev : event) : bool :=
  match ev with
  | CmdReq _ => true
  | PresetReq name => known_preset name
  | _ => false
  end.

(** The worker has read a command out of the slot and has not yet made the
    call for it. *)
Definition holding (w : wphase) : bool :=
  match w with
  | Holding _ => true
  | _ => false
  end.

(** [s'] has the trace of [s] followed by calls that all satisfy [P]. *)
Definition extends (P : hwcall -> Prop) (s s' : Store) : Prop :=
  exists l, hw s' = hw s ++ l /\ Forall P l.


(** The limits of the configuration are ordered and contain the centre
    position 90. *)
Definition limits_contain_centre (cfg : Config) : Prop :=
  PAN_MIN cfg <= 90 <= PAN_MAX cfg /\ TILT_MIN cfg <= 90 <= TILT_MAX cfg.

(** A limits file that keeps the pan servo below the centre position:
    [{"PAN_MAX": 80}]. *)
Definition narrow_config : Config :=
  {| PAN_MIN := 0; PAN_MAX := 80; TILT_MIN := 0; TILT_MAX := 180; OFFSETS := ∅ |}.

(** The bounds on the shared state that the data model asks for. *)
Definition in_bounds (cfg : Config) (s : Store) : Prop :=
  MIN_Z <= body_z s <= MAX_Z /\
  PAN_MIN cfg <= pan_angle s <= PAN_MAX cfg /\
  TILT_MIN cfg <= tilt_angle s <= TILT_MAX cfg.

(** The angle of a servo write is what [with_offset] returned for the port
    of the write and some requested angle. *)
Definition offset_applied (cfg : Config) (c : hwcall) : Prop :=
  match c with
  | SetServoAngle channel angle => exists req, angle = with_offset cfg channel req
  | _ => True
  end.

(** Every servo write a sequencer thread still owes carries an angle that
    [with_offset] returned for its port. *)
Definition writes_ok (cfg : Config) (ts : list task) : Prop :=
  Forall (fun t =>
    Forall (fun w : Z * Z => exists req, snd w = with_offset cfg (fst w) req) (writes t)) ts.

(** ** Further vocabulary *)

(** The keys [map_key_to_cmd] has a branch for. *)
Definition known_keys : list string :=
  ["w"; "s"; "d"; "a"; "j"; "l"; "i"; "k"; "t"; "r"].

(** The commands [handle_pan_tilt] has a branch for. *)
Definition pan_tilt_cmds : list string :=
  ["center"; "relax"; "pan_left"; "pan_right"; "tilt_up"; "tilt_down"].

(** A key press served and followed by one undisturbed tick of the worker. *)
Definition press (key : string) (s : Store) : Store :=
  fst (tick (fst (cmd_route key s))).

(** The six parameter lists the worker passes to [run_gait]. *)
Definition gait_tables : list (list string) :=
  [["CMD_MOVE"; "1"; "0"; "35"; "10"; "0"];
   ["CMD_MOVE"; "2"; "0"; "-35"; "10"; "10"];
   ["CMD_MOVE"; "1"; "35"; "0"; "10"; "0"];
   ["CMD_MOVE"; "1"; "-35"; "0"; "10"; "0"];
   ["CMD_MOVE"; "1"; "0"; "0"; "10"; "20"];
   ["CMD_MOVE"; "1"; "0"; "0"; "10"; "-20"]].

(** A gait call carries one of the six lists, and a pose call keeps x and y
    at 0 and z within the height limits. *)
Definition leg_call_ok (c : hwcall) : Prop :=
  match c with
  | RunGait data => In data gait_tables
  | MovePosition x y z => x = 0 /\ y = 0 /\ MIN_Z <= z <= MAX_Z
  | _ => True
  end.

(** Calls on the legs as a whole: gait and pose. *)
Definition leg_call (c : hwcall) : bool :=
  match c with
  | RunGait _ | MovePosition _ _ _ => true
  | _ => false
  end.

(** The calls found in [movement_worker]. *)
Definition worker_call (c : hwcall) : bool :=
  match c with
  | RunGait _ | MovePosition _ _ _ | Relax => true
  | _ => false
  end.

(** The calls found in the sequencer threads. *)
Definition effect_call (c : hwcall) : bool :=
  match c with
  | SetServoAngle _ _ | ColorWipe _ | BuzzerSetState _ => true
  | _ => false
  end.

(** An upper bound on the steps a sequencer thread has left: one per owed
    write, three per instruction ([pt_to] leaves two writes behind). *)
Definition fuel (t : task) : nat :=
  (length (writes t) + 3 * length (script t))%nat.

(** How many steps of thread [i] a schedule holds. *)
Fixpoint task_steps_in (i : nat) (evs : list event) : nat :=
  match evs with
  | [] => O
  | TaskStep j :: rest =>
      if Nat.eqb i j then S (task_steps_in i rest) else task_steps_in i rest
  | _ :: rest => task_steps_in i rest
  end.

(** [n] steps of one thread with nothing in between; threads it starts are
    dropped. *)
Fixpoint run_alone (cfg : Config) (n : nat) (t : task) (s : Store) : Store * task :=
  match n with
  | O => (s, t)
  | S n' =>
      let '(s1, t1, _) := task_step cfg t s in
      run_alone cfg n' t1 s1
  end.

(** Every [set_cmd] of a script, the threads it starts included, names one of
    the ten commands. *)
Fixpoint cmds_known (i : instr) : bool :=
  match i with
  | ISetCmd cmd => existsb (String.eqb cmd) known_cmds
  | ISpawn body => forallb cmds_known body
  | _ => true
  end.

(** The slot, the worker's local and every script hold known commands only. *)
Definition commands_known (sys : System) : Prop :=
  match current_cmd (store sys) with
  | Some cmd => In cmd known_cmds
  | None => True
  end /\
  match worker sys with
  | Holding cmd | Clearing cmd => In cmd known_cmds
  | _ => True
  end /\
  Forall (fun t => forallb cmds_known (script t) = true) (tasks sys).

(** A script of LED wipes, sleeps and loop tests whose jumps all land inside
    the script. *)
Fixpoint light_script (sc : list instr) : bool :=
  match sc with
  | [] => true
  | ILed _ :: k | ISleep _ :: k => light_script k
  | IBreakIf n :: k => (n <=? length k)%nat && light_script k
  | _ => false
  end.

(** [n] steps of the worker with no hardware failure and nothing in
    between. *)
Fixpoint worker_steps (n : nat) (s : Store) (w : wphase) : Store * wphase :=
  match n with
  | O => (s, w)
  | S n' =>
      let '(s1, w1) := worker_step false s w in
      worker_steps n' s1 w1
  end.

(** For every suffix of a script, head first and the empty suffix last, the
    number of steps a thread takes from there to its end while [STOP_ALL]
    is set: a loop test jumps, [pt_to] costs its two writes as well. *)
Fixpoint stop_costs (sc : list instr) : list nat :=
  match sc with
  | [] => [O]
  | i :: k =>
      let cs := stop_costs k in
      match i with
      | IBreakIf n => S (nth n cs O)
      | IPtTo _ _ => S (S (S (hd O cs)))
      | _ => S (hd O cs)
      end :: cs
  end.






(** * Properties *)

(** ** The slot and the tick *)

(** Case analysis along an [if String.eqb ... then ... else ...] chain. *)
Ltac split_chain :=
  repeat match goal with
    | |- context [if String.eqb ?a ?b then _ else _] =>
        let E := fresh "E" in destruct (String.eqb a b) eqn:E
    end.

Lemma map_key_to_cmd_known key cmd msg :
  map_key_to_cmd key = (Some cmd, msg) -> In cmd known_cmds.
Proof.
  unfold map_key_to_cmd, known_cmds. split_chain; intros H; inversion H; subst;
    simpl; tauto.
Qed.

Lemma run_action_no_exception cmd s : snd (run_action false cmd s) = false.
Proof. unfold run_action. split_chain; reflexivity. Qed.

Lemma run_action_current_cmd raises cmd s :
  current_cmd (fst (run_action raises cmd s)) = current_cmd s.
Proof. unfold run_action. split_chain; reflexivity. Qed.

Lemma run_action_flags raises cmd s :
  STOP_ALL (fst (run_action raises cmd s)) = STOP_ALL s /\
  thread_running (fst (run_action raises cmd s)) = thread_running s /\
  active_preset (fst (run_action raises cmd s)) = active_preset s.
Proof. unfold run_action. split_chain; auto. Qed.

(** A known command makes exactly one hardware call. *)
Lemma run_action_one_call raises cmd s :
  In cmd known_cmds ->
  exists c, hw (fst (run_action raises cmd s)) = hw s ++ [c].
Proof.
  unfold known_cmds. simpl. intros H.
  repeat (destruct H as [<- | H]; [vm_compute; eauto |]). destruct H.
Qed.

(** With an empty slot, no stop and the worker running, a tick is idle. *)
Lemma tick_idle s :
  thread_running s = true -> STOP_ALL s = false -> current_cmd s = None ->
  tick s = (s, AtLoop).
Proof.
  intros Hr Hs Hc. unfold tick, worker_step. rewrite Hr, Hs, Hc. reflexivity.
Qed.

Lemma ticks_idle n s :
  thread_running s = true -> STOP_ALL s = false -> current_cmd s = None ->
  ticks n s = s.
Proof.
  intros Hr Hs Hc. induction n as [| n IH]; simpl; [reflexivity |].
  rewrite tick_idle by assumption. exact IH.
Qed.

(** A tick that finds a command in the slot, with nobody else running in
    between: the action of that command, then the slot is emptied. *)
Lemma tick_executes s cmd :
  thread_running s = true -> STOP_ALL s = false -> current_cmd s = Some cmd ->
  tick s = (set_current_cmd None (fst (run_action false cmd s)), AtLoop).
Proof.
  intros Hr Hs Hc. unfold tick. simpl. rewrite Hr, Hs, Hc. simpl.
  destruct (run_action false cmd s) as [s1 exn] eqn:E. simpl.
  pose proof (run_action_no_exception cmd s) as Hexn. rewrite E in Hexn.
  simpl in Hexn. subst exn. simpl.
  pose proof (run_action_current_cmd false cmd s) as Hcur. rewrite E in Hcur.
  simpl in Hcur. unfold slot_is. rewrite Hcur, Hc, String.eqb_refl. reflexivity.
Qed.


(** ** Traces only grow *)

Lemma extends_refl P s : extends P s s.
Proof. exists []. split; [symmetry; apply app_nil_r | constructor]. Qed.

Lemma extends_same_hw P s s' : hw s' = hw s -> extends P s s'.
Proof. intros H. exists []. rewrite H, app_nil_r. split; [reflexivity | constructor]. Qed.

Lemma extends_one P s s' c : hw s' = hw s ++ [c] -> P c -> extends P s s'.
Proof. intros H Hc. exists [c]. split; [exact H | repeat constructor; exact Hc]. Qed.


Lemma extends_weaken (P Q : hwcall -> Prop) s s' :
  (forall c, P c -> Q c) -> extends P s s' -> extends Q s s'.
Proof.
  intros HPQ (l & H & F). exists l. split; [exact H |].
  eapply Forall_impl; eauto.
Qed.

Ltac trace_step :=
  first [ apply extends_refl
        | apply extends_same_hw; reflexivity
        | eapply extends_one; [reflexivity | simpl; first [reflexivity | lia | exact I]] ].

(** ** The gate *)

Lemma guarded_closed channel angle s :
  STOP_ALL s = true -> guarded_set_servo_angle channel angle s = s.
Proof. intros H. unfold guarded_set_servo_angle. rewrite H. reflexivity. Qed.

Lemma guarded_open channel angle s :
  STOP_ALL s = false ->
  guarded_set_servo_angle channel angle s = call (SetServoAngle channel angle) s.
Proof. intros H. unfold guarded_set_servo_angle. rewrite H. reflexivity. Qed.

Lemma guarded_keeps channel angle s :
  let s' := guarded_set_servo_angle channel angle s in
  STOP_ALL s' = STOP_ALL s /\ active_preset s' = active_preset s /\
  current_cmd s' = current_cmd s /\ thread_running s' = thread_running s /\
  body_z s' = body_z s /\ pan_angle s' = pan_angle s /\ tilt_angle s' = tilt_angle s.
Proof.
  unfold guarded_set_servo_angle. destruct (STOP_ALL s) eqn:E; simpl;
    repeat split; congruence.
Qed.

(** ** What one step may do while the gate is closed *)

Section Stopped.

Context (cfg : Config).

Lemma pan_tilt_apply_closed pan tilt s :
  STOP_ALL s = true ->
  fst (pan_tilt_apply cfg pan tilt s) = set_tilt_angle tilt (set_pan_angle pan s).
Proof.
  intros H. unfold pan_tilt_apply. cbv zeta. unfold fst.
  rewrite (guarded_closed PAN_PORT) by exact H.
  rewrite (guarded_closed TILT_PORT) by exact H. reflexivity.
Qed.

Lemma pan_tilt_while_stopped cmd n s :
  STOP_ALL s = true ->
  let s' := fst (handle_pan_tilt cfg cmd n s) in
  STOP_ALL s' = true /\ active_preset s' = active_preset s /\
  extends (fun c => motion c = false) s s'.
Proof.
  intros H. unfold handle_pan_tilt. cbv zeta.
  split_chain; rewrite ?pan_tilt_apply_closed by exact H; simpl;
    (split; [exact H | split; [reflexivity | trace_step]]).
Qed.

Lemma exec_instr_while_stopped i k s :
  STOP_ALL s = true ->
  let s' := fst (fst (exec_instr cfg i k s)) in
  STOP_ALL s' = true /\
  (active_preset s = None -> active_preset s' = None) /\
  extends (fun c => motion c = false) s s'.
Proof.
  intros H. destruct i; simpl; try (split; [exact H | split; [auto | trace_step]]).
  unfold pt_to. destruct pan, tilt; simpl; (split; [exact H | split; [auto | trace_step]]).
Qed.

Lemma task_step_while_stopped t s :
  STOP_ALL s = true ->
  let s' := fst (fst (task_step cfg t s)) in
  STOP_ALL s' = true /\
  (active_preset s = None -> active_preset s' = None) /\
  extends (fun c => motion c = false) s s'.
Proof.
  intros H. unfold task_step. destruct (writes t) as [| [channel angle] ws].
  - destruct (script t) as [| i k].
    + simpl. split; [exact H | split; [auto | trace_step]].
    + apply exec_instr_while_stopped. exact H.
  - simpl. rewrite guarded_closed by exact H.
    split; [exact H | split; [auto | trace_step]].
Qed.




End Stopped.

(** ** Stop-all *)


Lemma step_worker_store (cfg : Config) sys raises :
  store (step cfg sys (WorkerStep raises))
  = fst (worker_step raises (store sys) (worker sys)).
Proof.
  unfold step. destruct (worker_step raises (store sys) (worker sys)). reflexivity.
Qed.

Lemma step_worker_phase (cfg : Config) sys raises :
  worker (step cfg sys (WorkerStep raises))
  = snd (worker_step raises (store sys) (worker sys)).
Proof.
  unfold step. destruct (worker_step raises (store sys) (worker sys)). reflexivity.
Qed.


(** ** Sequencers *)

Lemma for_break_leaves_loop (cfg : Config) bodies k s :
  bodies <> [] -> STOP_ALL s = true ->
  task_step cfg (thread (for_break bodies ++ k)) s = (s, thread k, []).
Proof.
  intros Hne Hs. destruct bodies as [| b rest]; [congruence |].
  unfold task_step. simpl. rewrite Hs.
  rewrite <- length_app, drop_app_length. reflexivity.
Qed.

Lemma for_break_enters_body (cfg : Config) b rest k s :
  STOP_ALL s = false ->
  task_step cfg (thread (for_break (b :: rest) ++ k)) s
  = (s, thread ((b ++ for_break rest) ++ k), []).
Proof. intros Hs. unfold task_step. simpl. rewrite Hs. reflexivity. Qed.

(** With the flag set, an effect thread that reaches its first loop test
    skips its loop: [_breathe] and [_police] are left with their closing
    [led_off], [_blink] with nothing. *)
Lemma effects_at_first_test (cfg : Config) s :
  STOP_ALL s = true ->
  (forall r g b n on_t off_t,
     task_step cfg (thread (_blink r g b (S n) on_t off_t)) s = (s, thread [], [])) /\
  (forall r g b n,
     task_step cfg (thread (_breathe r g b (S n))) s = (s, thread [led_off], [])) /\
  (forall n, task_step cfg (thread (_police (S n))) s = (s, thread [led_off], [])).
Proof.
  intros Hs. split; [| split].
  - intros. unfold _blink. rewrite <- (app_nil_r (for_break _)).
    apply for_break_leaves_loop; [discriminate | exact Hs].
  - intros. unfold _breathe. apply for_break_leaves_loop; [discriminate | exact Hs].
  - intros. unfold _police. apply for_break_leaves_loop; [discriminate | exact Hs].
Qed.


(** ** Where servo writes come from *)

Section Writes.

Context (cfg : Config).

Lemma cmd_route_keeps key s :
  let s' := fst (cmd_route key s) in
  hw s' = hw s /\ body_z s' = body_z s /\ pan_angle s' = pan_angle s /\
  tilt_angle s' = tilt_angle s /\ thread_running s' = thread_running s /\
  active_preset s' = active_preset s /\ STOP_ALL s' = false.
Proof.
  unfold cmd_route. destruct (map_key_to_cmd key) as [[cmd |] msg]; simpl;
    repeat split; reflexivity.
Qed.

Lemma pan_tilt_apply_open pan tilt s :
  STOP_ALL s = false ->
  pan_tilt_apply cfg pan tilt s
  = (call (SetServoAngle TILT_PORT (with_offset cfg TILT_PORT tilt))
       (call (SetServoAngle PAN_PORT (with_offset cfg PAN_PORT pan))
          (set_tilt_angle tilt (set_pan_angle pan s))),
     (pan, tilt)).
Proof.
  intros H. unfold pan_tilt_apply. cbv zeta.
  rewrite (guarded_open PAN_PORT) by exact H.
  rewrite (guarded_open TILT_PORT) by exact H. reflexivity.
Qed.

(** [handle_pan_tilt] either is the ["relax"] branch or ends in the shared
    tail with some target angles. *)
Lemma handle_pan_tilt_cases cmd n s :
  (cmd = "relax" /\
   handle_pan_tilt cfg cmd n s
   = (set_tilt_angle (tilt_angle s) (set_pan_angle (pan_angle s) (call Relax s)),
      (pan_angle s, tilt_angle s)))
  \/ (cmd <> "relax" /\
      exists pan tilt, handle_pan_tilt cfg cmd n s = pan_tilt_apply cfg pan tilt s).
Proof.
  unfold handle_pan_tilt. cbv zeta.
  destruct (String.eqb cmd "center") eqn:E1.
  { right. apply String.eqb_eq in E1. subst cmd. split; [discriminate | eauto]. }
  destruct (String.eqb cmd "relax") eqn:E2.
  { left. apply String.eqb_eq in E2. split; [exact E2 | reflexivity]. }
  right. apply String.eqb_neq in E2. split; [exact E2 |].
  split_chain; eauto.
Qed.

Lemma exec_instr_no_servo i k s :
  extends (fun c => servo_write c = false) s (fst (fst (exec_instr cfg i k s))).
Proof.
  destruct i; simpl; try trace_step.
  unfold pt_to. destruct pan, tilt; simpl; trace_step.
Qed.

Lemma run_action_no_servo raises cmd s :
  extends (fun c => servo_write c = false) s (fst (run_action raises cmd s)).
Proof. unfold run_action. split_chain; simpl; trace_step. Qed.

Lemma worker_step_no_servo raises s w :
  extends (fun c => servo_write c = false) s (fst (worker_step raises s w)).
Proof.
  destruct w; simpl; try trace_step.
  - destruct (thread_running s); simpl; [| trace_step].
    destruct (STOP_ALL s); [destruct raises; simpl; trace_step |].
    destruct (current_cmd s); simpl; trace_step.
  - pose proof (run_action_no_servo raises cmd s) as H.
    destruct (run_action raises cmd s). exact H.
  - destruct (slot_is cmd s); simpl; trace_step.
Qed.

(** The servo writes of one step.  Either the step appends no servo write to
    the trace, or the gate is open and the step is one of the two places that
    call [set_servo_angle]: the tail of [handle_pan_tilt], which forwards the
    two offset angles, or a sequencer thread making the next write it owes
    from [pt_to]. *)
Lemma step_servo_writes sys ev :
  extends (fun c => servo_write c = false) (store sys) (store (step cfg sys ev))
  \/ (STOP_ALL (store sys) = false /\
      ((exists cmd n,
          ev = PanTiltReq cmd n /\ cmd <> "relax" /\
          let '(pan, tilt) := snd (handle_pan_tilt cfg cmd n (store sys)) in
          hw (store (step cfg sys ev))
          = hw (store sys) ++ [SetServoAngle PAN_PORT (with_offset cfg PAN_PORT pan);
                               SetServoAngle TILT_PORT (with_offset cfg TILT_PORT tilt)])
       \/ (exists i t channel angle ws,
             ev = TaskStep i /\ tasks sys !! i = Some t /\
             writes t = (channel, angle) :: ws /\
             hw (store (step cfg sys ev))
             = hw (store sys) ++ [SetServoAngle channel angle]))).
Proof.
  destruct ev as [key | | cmd n | mode r g b | mode | name | raises | i].
  - left. simpl. apply extends_same_hw. apply cmd_route_keeps.
  - left. simpl. trace_step.
  - destruct (STOP_ALL (store sys)) eqn:Hs.
    + left. simpl.
      destruct (pan_tilt_while_stopped cfg cmd n (store sys) Hs) as (_ & _ & H).
      eapply extends_weaken; [| exact H]. intros [] Hc; simpl in *; congruence.
    + destruct (handle_pan_tilt_cases cmd n (store sys)) as [[_ E] | [Hne (pan & tilt & E)]].
      * left. simpl. rewrite E. simpl. trace_step.
      * right. split; [reflexivity |]. left. exists cmd, n.
        split; [reflexivity | split; [exact Hne |]].
        simpl. rewrite E, pan_tilt_apply_open by exact Hs. simpl.
        rewrite <- app_assoc. reflexivity.
  - left. unfold step, led_route.
    pose proof (exec_instr_no_servo (led_set mode r g b) [] (store sys)) as H.
    destruct (exec_instr cfg (led_set mode r g b) [] (store sys)) as [[s1 t1] new].
    exact H.
  - left. unfold step, buzzer_route. split_chain; simpl; trace_step.
  - left. unfold step, preset_route. destruct (known_preset name); simpl; trace_step.
  - left. rewrite step_worker_store. apply worker_step_no_servo.
  - unfold step. destruct (tasks sys !! i) as [t |] eqn:Et; [| left; apply extends_refl].
    unfold task_step. destruct (writes t) as [| [channel angle] ws] eqn:Ew.
    + left. destruct (script t) as [| ins k]; [simpl; apply extends_refl |].
      pose proof (exec_instr_no_servo ins k (store sys)) as H.
      destruct (exec_instr cfg ins k (store sys)) as [[s1 t1] new]. exact H.
    + destruct (STOP_ALL (store sys)) eqn:Hs.
      * left. simpl. rewrite guarded_closed by exact Hs. apply extends_refl.
      * right. split; [reflexivity |]. right. exists i, t, channel, angle, ws.
        repeat split; try assumption.
        simpl. rewrite guarded_open by exact Hs. reflexivity.
Qed.


End Writes.

(** ** Angles sent to the servos *)

Section Angles.

Context (cfg : Config).

Lemma with_offset_range port angle : 0 <= with_offset cfg port angle <= 180.
Proof.
  unfold with_offset. cbv zeta.
  destruct (angle + default 0 (OFFSETS cfg !! port) <? 0) eqn:E1.
  - simpl. lia.
  - apply Z.ltb_ge in E1.
    destruct (180 <? angle + default 0 (OFFSETS cfg !! port)) eqn:E2; [lia |].
    apply Z.ltb_ge in E2. lia.
Qed.

Lemma exec_instr_tasks_ok i k s :
  writes_ok cfg [snd (fst (exec_instr cfg i k s))] /\
  writes_ok cfg (snd (exec_instr cfg i k s)).
Proof.
  unfold writes_ok.
  destruct i; simpl; try (split; repeat constructor).
  all: simpl; eexists; reflexivity.
Qed.

Lemma step_writes_ok sys ev :
  writes_ok cfg (tasks sys) -> writes_ok cfg (tasks (step cfg sys ev)).
Proof.
  intros H. unfold writes_ok in *.
  destruct ev as [key | | cmd n | mode r g b | mode | name | raises | i]; simpl;
    try exact H.
  - unfold led_route.
    pose proof (exec_instr_tasks_ok (led_set mode r g b) [] (store sys)) as [_ Hn].
    destruct (exec_instr cfg (led_set mode r g b) [] (store sys)) as [[s1 t1] new].
    simpl in *. apply Forall_app. split; assumption.
  - unfold buzzer_route. split_chain; simpl; try exact H.
    apply Forall_app. split; [exact H | repeat constructor].
  - unfold preset_route. destruct (known_preset name); simpl; try exact H.
    apply Forall_app. split; [exact H | repeat constructor].
  - destruct (worker_step raises (store sys) (worker sys)). exact H.
  - destruct (tasks sys !! i) as [t |] eqn:Et; [| exact H].
    pose proof (Forall_lookup_1 _ _ _ _ H Et) as Ht. simpl in Ht.
    unfold task_step. destruct (writes t) as [| [channel angle] ws] eqn:Ew.
    + destruct (script t) as [| ins k].
      * simpl. apply Forall_app. split; [| constructor].
        apply Forall_insert; [exact H |]. rewrite Ew. constructor.
      * pose proof (exec_instr_tasks_ok ins k (store sys)) as [Ht1 Hn].
        destruct (exec_instr cfg ins k (store sys)) as [[s1 t1] new].
        simpl in *. apply Forall_app. split; [| exact Hn].
        apply Forall_insert; [exact H |]. inversion Ht1; assumption.
    + simpl. apply Forall_app. split; [| constructor].
      apply Forall_insert; [exact H |]. simpl. inversion Ht; assumption.
Qed.

Lemma step_offset_applied sys ev :
  writes_ok cfg (tasks sys) -> Forall (offset_applied cfg) (hw (store sys)) ->
  Forall (offset_applied cfg) (hw (store (step cfg sys ev))).
Proof.
  intros Hw Hhw.
  destruct (step_servo_writes cfg sys ev)
    as [(l & E & Hl) | [_ [(cmd & n & _ & _ & E) | (i & t & channel & angle & ws & _ & Et & Ew & E)]]].
  - rewrite E. apply Forall_app. split; [exact Hhw |].
    eapply Forall_impl; [exact Hl |]. intros [] Hc; simpl in *; try exact I. discriminate.
  - destruct (snd (handle_pan_tilt cfg cmd n (store sys))) as [pan tilt].
    rewrite E. apply Forall_app. split; [exact Hhw |].
    repeat constructor; simpl; eexists; reflexivity.
  - rewrite E. apply Forall_app. split; [exact Hhw |].
    pose proof (Forall_lookup_1 _ _ _ _ Hw Et) as Ht. simpl in Ht.
    rewrite Ew in Ht. inversion Ht as [| ? ? Ha ?]; subst.
    constructor; [exact Ha | constructor].
Qed.

Lemma run_offset_applied evs : forall sys,
  writes_ok cfg (tasks sys) -> Forall (offset_applied cfg) (hw (store sys)) ->
  Forall (offset_applied cfg) (hw (store (run cfg evs sys))).
Proof.
  induction evs as [| ev evs IH]; intros sys Hw Hhw; simpl; [exact Hhw |].
  apply IH; [apply step_writes_ok | apply step_offset_applied]; assumption.
Qed.

Lemma offset_applied_angle_ok c : offset_applied cfg c -> angle_ok c.
Proof.
  destruct c; simpl; try tauto. intros [req ->]. apply with_offset_range.
Qed.


End Angles.

(** ** Bounds on the shared state *)

Section Bounds.

Context (cfg : Config).

Lemma clamp_range v lo hi : lo <= hi -> lo <= clamp v lo hi <= hi.
Proof. unfold clamp. lia. Qed.

Lemma _clamp_range v lo hi : lo <= hi -> lo <= _clamp v lo hi <= hi.
Proof. unfold _clamp. lia. Qed.

Lemma run_action_body_z raises cmd s :
  MIN_Z <= body_z s <= MAX_Z ->
  MIN_Z <= body_z (fst (run_action raises cmd s)) <= MAX_Z.
Proof.
  intros H. unfold run_action. split_chain; simpl; try exact H;
    apply clamp_range; unfold MIN_Z, MAX_Z; lia.
Qed.

Lemma run_action_pan_tilt raises cmd s :
  pan_angle (fst (run_action raises cmd s)) = pan_angle s /\
  tilt_angle (fst (run_action raises cmd s)) = tilt_angle s.
Proof. unfold run_action. split_chain; simpl; auto. Qed.

Lemma worker_step_bounds raises s w :
  in_bounds cfg s -> in_bounds cfg (fst (worker_step raises s w)).
Proof.
  intros (Hz & Hp & Ht). destruct w; simpl.
  - destruct (thread_running s); simpl; [| (unfold in_bounds; simpl; tauto)].
    destruct (STOP_ALL s); [destruct raises; (unfold in_bounds; simpl; tauto) |].
    destruct (current_cmd s); (unfold in_bounds; simpl; tauto).
  - pose proof (run_action_body_z raises cmd s Hz) as Hz'.
    destruct (run_action_pan_tilt raises cmd s) as [Ep Et].
    destruct (run_action raises cmd s) as [s1 exn]. simpl in *.
    unfold in_bounds. rewrite Ep, Et. (unfold in_bounds; simpl; tauto).
  - destruct (slot_is cmd s); (unfold in_bounds; simpl; tauto).
  - (unfold in_bounds; simpl; tauto).
  - (unfold in_bounds; simpl; tauto).
Qed.

Lemma pan_tilt_apply_fields pan tilt s :
  let s' := fst (pan_tilt_apply cfg pan tilt s) in
  body_z s' = body_z s /\ pan_angle s' = pan /\ tilt_angle s' = tilt /\
  STOP_ALL s' = STOP_ALL s /\ current_cmd s' = current_cmd s /\
  active_preset s' = active_preset s.
Proof.
  unfold pan_tilt_apply. cbv zeta. unfold fst.
  set (s1 := set_tilt_angle tilt (set_pan_angle pan s)).
  set (s2 := guarded_set_servo_angle PAN_PORT (with_offset cfg PAN_PORT pan) s1).
  destruct (guarded_keeps TILT_PORT (with_offset cfg TILT_PORT tilt) s2)
    as (A1 & A2 & A3 & A4 & A5 & A6 & A7).
  destruct (guarded_keeps PAN_PORT (with_offset cfg PAN_PORT pan) s1)
    as (B1 & B2 & B3 & B4 & B5 & B6 & B7).
  fold s2 in B1, B2, B3, B4, B5, B6, B7.
  rewrite A1, A2, A3, A5, A6, A7, B1, B2, B3, B5, B6, B7.
  subst s1. simpl. repeat split; reflexivity.
Qed.

Lemma handle_pan_tilt_bounds cmd n s :
  limits_contain_centre cfg -> in_bounds cfg s ->
  in_bounds cfg (fst (handle_pan_tilt cfg cmd n s)).
Proof.
  intros [Hpc Htc] (Hz & Hp & Ht). unfold handle_pan_tilt. cbv zeta.
  split_chain;
    try (match goal with
         | |- in_bounds _ (fst (pan_tilt_apply _ ?p ?t ?s)) =>
             destruct (pan_tilt_apply_fields p t s) as (F1 & F2 & F3 & _);
             unfold in_bounds; rewrite F1, F2, F3
         end);
    unfold in_bounds; simpl;
    repeat match goal with
      | |- context [_clamp ?v ?lo ?hi] =>
          let H := fresh "Hc" in
          assert (H : lo <= hi) by lia;
          apply (_clamp_range v) in H; revert H;
          generalize (_clamp v lo hi); intros ? ?
      end; lia.
Qed.

Lemma exec_instr_bounds i k s :
  PAN_MIN cfg <= PAN_MAX cfg -> TILT_MIN cfg <= TILT_MAX cfg ->
  in_bounds cfg s -> in_bounds cfg (fst (fst (exec_instr cfg i k s))).
Proof.
  intros Hpl Htl (Hz & Hp & Ht). destruct i; simpl; try ((unfold in_bounds; simpl; tauto)).
  unfold pt_to.
  destruct pan as [p |], tilt as [t |]; unfold in_bounds; simpl;
    try pose proof (clamp_range p _ _ Hpl);
    try pose proof (clamp_range t _ _ Htl); tauto.
Qed.

Lemma step_bounds sys ev :
  limits_contain_centre cfg ->
  in_bounds cfg (store sys) -> in_bounds cfg (store (step cfg sys ev)).
Proof.
  intros Hc Hb. assert (Hc' := Hc). destruct Hc' as [Hpc Htc].
  destruct ev as [key | | cmd n | mode r g b | mode | name | raises | i].
  - simpl. destruct (cmd_route_keeps key (store sys)) as (_ & E1 & E2 & E3 & _).
    destruct Hb as (Hz & Hp & Ht). unfold in_bounds. rewrite E1, E2, E3.
    (unfold in_bounds; simpl; tauto).
  - exact Hb.
  - simpl. apply handle_pan_tilt_bounds; assumption.
  - unfold step, led_route.
    pose proof (exec_instr_bounds (led_set mode r g b) [] (store sys)) as H.
    destruct (exec_instr cfg (led_set mode r g b) [] (store sys)) as [[s1 t1] new].
    apply H; [lia | lia | exact Hb].
  - unfold step, buzzer_route. split_chain; exact Hb.
  - unfold step, preset_route. destruct (known_preset name); exact Hb.
  - rewrite step_worker_store. apply worker_step_bounds. exact Hb.
  - unfold step. destruct (tasks sys !! i) as [t |]; [| exact Hb].
    unfold task_step. destruct (writes t) as [| [channel angle] ws].
    + destruct (script t) as [| ins k]; [exact Hb |].
      pose proof (exec_instr_bounds ins k (store sys)) as H.
      destruct (exec_instr cfg ins k (store sys)) as [[s1 t1] new].
      apply H; [lia | lia | exact Hb].
    + simpl.
      destruct (guarded_keeps channel angle (store sys)) as (_ & _ & _ & _ & E1 & E2 & E3).
      destruct Hb as (Hz & Hp & Ht). unfold in_bounds. rewrite E1, E2, E3.
      (unfold in_bounds; simpl; tauto).
Qed.

(** When the configured limits contain the centre position, the bounds hold
    in the initial state and after every run. *)
Lemma bounds_hold_when_limits_contain_centre evs :
  limits_contain_centre cfg ->
  in_bounds cfg (store (run cfg evs (init_system cfg))).
Proof.
  intros Hc.
  assert (H0 : in_bounds cfg (store (init_system cfg))).
  { destruct Hc as [Hpc Htc]. unfold in_bounds. simpl.
    unfold MIN_Z, MAX_Z, RESET_Z. lia. }
  generalize dependent (init_system cfg).
  induction evs as [| ev evs IH]; intros sys Hb; simpl; [exact Hb |].
  apply IH. apply step_bounds; assumption.
Qed.

(** The height bound needs nothing from the configuration. *)
Lemma body_z_always_in_range evs :
  MIN_Z <= body_z (store (run cfg evs (init_system cfg))) <= MAX_Z.
Proof.
  assert (H0 : MIN_Z <= body_z (store (init_system cfg)) <= MAX_Z).
  { simpl. unfold MIN_Z, MAX_Z, RESET_Z. lia. }
  generalize dependent (init_system cfg).
  induction evs as [| ev evs IH]; intros sys Hb; simpl; [exact Hb |].
  apply IH.
  destruct ev as [key | | cmd n | mode r g b | mode | name | raises | i].
  - simpl. destruct (cmd_route_keeps key (store sys)) as (_ & E1 & _).
    rewrite E1. exact Hb.
  - exact Hb.
  - simpl. destruct (handle_pan_tilt_cases cfg cmd n (store sys))
      as [[_ E] | [_ (pan & tilt & E)]]; rewrite E; [exact Hb |].
    destruct (pan_tilt_apply_fields pan tilt (store sys)) as (E1 & _).
    rewrite E1. exact Hb.
  - unfold step, led_route. destruct (led_set mode r g b); simpl; try exact Hb.
    unfold pt_to. destruct pan, tilt; exact Hb.
  - unfold step, buzzer_route. split_chain; exact Hb.
  - unfold step, preset_route. destruct (known_preset name); exact Hb.
  - rewrite step_worker_store. destruct (worker sys); simpl; try exact Hb.
    + destruct (thread_running (store sys)); simpl; [| exact Hb].
      destruct (STOP_ALL (store sys)); [destruct raises; exact Hb |].
      destruct (current_cmd (store sys)); exact Hb.
    + pose proof (run_action_body_z raises cmd (store sys) Hb) as H.
      destruct (run_action raises cmd (store sys)). exact H.
    + destruct (slot_is cmd (store sys)); exact Hb.
  - unfold step. destruct (tasks sys !! i) as [t |]; [| exact Hb].
    unfold task_step. destruct (writes t) as [| [channel angle] ws].
    + destruct (script t) as [| ins k]; [exact Hb |].
      destruct ins; simpl; try exact Hb.
      unfold pt_to. destruct pan, tilt; exact Hb.
    + simpl.
      destruct (guarded_keeps channel angle (store sys)) as (_ & _ & _ & _ & E1 & _).
      rewrite E1. exact Hb.
Qed.

End Bounds.

(** ** Who clears the stop flag *)

Lemma worker_step_keeps_stop raises s w :
  STOP_ALL (fst (worker_step raises s w)) = STOP_ALL s.
Proof.
  destruct w; simpl; try reflexivity.
  - destruct (thread_running s); simpl; [| reflexivity].
    destruct (STOP_ALL s) eqn:E; [destruct raises; exact E |].
    destruct (current_cmd s); exact E.
  - destruct (run_action_flags raises cmd s) as (H & _).
    destruct (run_action raises cmd s). exact H.
  - destruct (slot_is cmd s); reflexivity.
Qed.

Lemma step_keeps_gate_closed (cfg : Config) sys ev :
  STOP_ALL (store sys) = true -> resumes ev = false ->
  STOP_ALL (store (step cfg sys ev)) = true.
Proof.
  intros Hs Hev.
  destruct ev as [key | | cmd n | mode r g b | mode | name | raises | i];
    simpl in Hev; try discriminate.
  - reflexivity.
  - simpl. apply pan_tilt_while_stopped. exact Hs.
  - unfold step, led_route.
    pose proof (exec_instr_while_stopped cfg (led_set mode r g b) [] (store sys) Hs)
      as (A & _).
    destruct (exec_instr cfg (led_set mode r g b) [] (store sys)) as [[s1 t1] new].
    exact A.
  - unfold step, buzzer_route. split_chain; exact Hs.
  - unfold step, preset_route. rewrite Hev. exact Hs.
  - rewrite step_worker_store, worker_step_keeps_stop. exact Hs.
  - unfold step. destruct (tasks sys !! i) as [t |]; [| exact Hs].
    pose proof (task_step_while_stopped cfg t (store sys) Hs) as (A & _).
    destruct (task_step cfg t (store sys)) as [[s1 t1] new]. exact A.
Qed.


(** ** How the worker ends *)

Lemma run_action_raises raises cmd s :
  In cmd known_cmds -> snd (run_action raises cmd s) = raises.
Proof.
  unfold known_cmds. simpl. intros H.
  repeat (destruct H as [<- | H]; [reflexivity |]). destruct H.
Qed.

Lemma run_action_unknown raises cmd s :
  ~ In cmd known_cmds -> run_action raises cmd s = (s, false).
Proof.
  intros H. unfold run_action.
  split_chain; try reflexivity;
    exfalso; apply H;
    match goal with
    | E : String.eqb _ _ = true |- _ => apply String.eqb_eq in E; subst cmd
    end; simpl; tauto.
Qed.

(** C4, as the code has it. [movement_worker] has no exception handler.  The
    worker leaves its loop normally exactly when [thread_running] is false
    at the loop test, and it is ended by an exception exactly when a
    hardware call of the step raises: [relax] under [STOP_ALL], or the gait
    or position call of a known command. *)
Theorem worker_ends_on_flag_or_exception (raises : bool) (s : Store) (w : wphase) :
  let w' := snd (worker_step raises s w) in
  (w' = Exited <-> w = Exited \/ (w = AtLoop /\ thread_running s = false)) /\
  (w' = Died <->
   w = Died \/
   (raises = true /\
    ((w = AtLoop /\ thread_running s = true /\ STOP_ALL s = true)
     \/ exists cmd, w = Holding cmd /\ In cmd known_cmds))).
Proof.
  destruct w as [| cmd | cmd | |]; simpl.
  - destruct (thread_running s) eqn:Hr; simpl.
    + destruct (STOP_ALL s) eqn:Hs.
      * destruct raises; simpl; split; split; try discriminate; intros H;
          try reflexivity.
        -- destruct H as [H | [_ H]]; discriminate.
        -- right. split; [reflexivity | left; auto].
        -- destruct H as [H | [_ H]]; discriminate.
        -- destruct H as [H | [H _]]; discriminate.
      * destruct (current_cmd s); simpl; split; split; try discriminate; intros H.
        all: try (destruct H as [H | [_ H]]; discriminate).
        all: destruct H as [H | [_ [(_ & _ & H) | (c & H & _)]]]; discriminate.
    + split; split; try discriminate; intros H; try reflexivity.
      * right. auto.
      * destruct H as [H | [_ [(_ & H & _) | (c & H & _)]]]; discriminate.
  - destruct (In_dec string_dec cmd known_cmds) as [Hin | Hout].
    + pose proof (run_action_raises raises cmd s Hin) as E.
      destruct (run_action raises cmd s) as [s1 exn]. simpl in *. subst exn.
      destruct raises; split; split; try discriminate; intros H; try reflexivity.
      * destruct H as [H | [H _]]; discriminate.
      * right. split; [reflexivity | right; eauto].
      * destruct H as [H | [H _]]; discriminate.
      * destruct H as [H | [H _]]; discriminate.
    + rewrite (run_action_unknown raises cmd s Hout). simpl.
      split; split; try discriminate; intros H.
      * destruct H as [H | [H _]]; discriminate.
      * destruct H as [H | [_ [(H & _) | (c & H & Hc)]]]; try discriminate.
        inversion H; subst. contradiction.
  - split; split; try discriminate; intros H.
    + destruct H as [H | [H _]]; discriminate.
    + destruct H as [H | [_ [(H & _) | (c & H & _)]]]; discriminate.
  - split; split; try discriminate; intros H; auto.
    destruct H as [H | [_ [(H & _) | (c & H & _)]]]; discriminate.
  - split; split; try discriminate; intros H; auto.
    destruct H as [H | [H _]]; discriminate.
Qed.

(** ** Clearing the slot after an action *)

(** C6, as the code has it. After the action the worker compares the slot
    with its local command by value.  If they are equal the slot is emptied,
    also when a writer has stored the same name again in the meantime; a
    command with a different name stays in the slot, and the next tick
    (worker running, gate open) performs its action and then empties the
    slot. An empty slot stays empty. *)
Theorem slot_cleared_when_equal (raises : bool) (s : Store) (cmd : string) :
  let s' := fst (worker_step raises s (Clearing cmd)) in
  snd (worker_step raises s (Clearing cmd)) = AtLoop /\
  (current_cmd s = Some cmd -> s' = set_current_cmd None s) /\
  (current_cmd s = None -> s' = s) /\
  (forall newer, current_cmd s = Some newer -> newer <> cmd ->
     s' = s /\
     (thread_running s = true -> STOP_ALL s = false ->
      tick s' = (set_current_cmd None (fst (run_action false newer s)), AtLoop))).
Proof.
  simpl. split; [reflexivity |]. unfold slot_is. split; [| split].
  - intros H. rewrite H, String.eqb_refl. reflexivity.
  - intros H. rewrite H. reflexivity.
  - intros newer H Hne. rewrite H.
    apply String.eqb_neq in Hne. rewrite Hne. split; [reflexivity |].
    intros Hr Hs. apply tick_executes; assumption.
Qed.

(** ** Unknown names *)

Lemma cmd_route_unknown key s :
  fst (map_key_to_cmd key) = None ->
  cmd_route key s
  = (set_STOP_ALL false s,
     {| ok := true; message := "Unknown hexapod command"; status := 200 |}).
Proof.
  intros H. unfold cmd_route. destruct (map_key_to_cmd key) as [[cmd |] msg];
    [discriminate | reflexivity].
Qed.

Lemma preset_route_unknown name sys :
  known_preset name = false ->
  preset_route name sys
  = (sys, {| ok := false; message := "Unknown preset"; status := 400 |}).
Proof. intros H. unfold preset_route. rewrite H. reflexivity. Qed.

(** C7. [/cmd?key=x] on a stopped robot: the key is unknown and the slot is
    left alone, but the request has already released the stop flag. *)
Theorem unknown_key_releases_stop :
  let s := fst (stopall_route (init_store default_config)) in
  map_key_to_cmd "x" = (None, "Unknown hexapod command") /\
  STOP_ALL s = true /\
  current_cmd (fst (cmd_route "x" s)) = current_cmd s /\
  message (snd (cmd_route "x" s)) = "Unknown hexapod command" /\
  STOP_ALL (fst (cmd_route "x" s)) = false /\
  fst (cmd_route "x" s) <> s.
Proof.
  simpl. repeat split. intros H. apply (f_equal STOP_ALL) in H. discriminate.
Qed.

(** ** Centre position and configured limits *)

(** C9. With a limits file that sets [PAN_MAX] to 80: a [/pt] request moves
    the pan angle into the limits, and a following ["center"] request puts
    it at 90, outside them. *)
Theorem center_ignores_configured_limits :
  let sys := run narrow_config [PanTiltReq "pan_left" 40] (init_system narrow_config) in
  in_bounds narrow_config (store sys) /\
  pan_angle (store (step narrow_config sys (PanTiltReq "center" 3))) = 90 /\
  PAN_MAX narrow_config = 80 /\
  ~ in_bounds narrow_config (store (step narrow_config sys (PanTiltReq "center" 3))).
Proof.
  unfold in_bounds. simpl. unfold MIN_Z, MAX_Z, RESET_Z, _clamp.
  repeat split; lia.
Qed.

(** * Concrete runs *)





(** C4, the claim as stated fails: the gait call for ["fwd"] raises, the
    worker thread is gone although [thread_running] is still true, and a
    later command stays in the slot. *)
Lemma worker_dies_on_actuator_error :
  let sys := run default_config
               [CmdReq "w"; WorkerStep false; WorkerStep true;
                CmdReq "a"; WorkerStep false; WorkerStep false; WorkerStep false]
               (init_system default_config) in
  worker sys = Died /\
  thread_running (store sys) = true /\
  current_cmd (store sys) = Some "left".
Proof. vm_compute. repeat split; reflexivity. Qed.

(** C4 as amended, at a raising gait call for ["fwd"]. *)
Lemma worker_ends_on_flag_or_exception_witness :
  snd (worker_step true (init_store default_config) (Holding "fwd")) = Died.
Proof.
  destruct (worker_ends_on_flag_or_exception true (init_store default_config)
              (Holding "fwd")) as [_ [_ H]].
  apply H. right. split; [reflexivity |]. right. exists "fwd".
  split; [reflexivity | simpl; tauto].
Defined.

(** C5, the claim as stated fails twice: a [/pt] request leaves the stop
    flag set, and a [/preset] request clears it. *)
Lemma pan_tilt_keeps_stop_and_preset_clears_it :
  let sys := step default_config (init_system default_config) StopAllReq in
  STOP_ALL (store sys) = true /\
  STOP_ALL (store (step default_config sys (PanTiltReq "pan_left" 3))) = true /\
  STOP_ALL (store (step default_config sys (PresetReq "demo1"))) = false.
Proof. vm_compute. repeat split; reflexivity. Qed.


(** C6, the claim as stated fails: while the worker holds ["fwd"], a writer
    stores ["fwd"] again; the worker acts once, finds the slot equal to its
    local and empties it, and the second request is never acted on. *)
Lemma same_name_overwrite_is_lost :
  let sys1 := run default_config [CmdReq "w"; WorkerStep false]
                (init_system default_config) in
  let sys2 := step default_config sys1 (CmdReq "w") in
  let sys3 := run default_config [WorkerStep false; WorkerStep false] sys2 in
  let sys4 := run default_config (replicate 6 (WorkerStep false)) sys3 in
  worker sys1 = Holding "fwd" /\
  current_cmd (store sys2) = Some "fwd" /\
  worker sys3 = AtLoop /\
  current_cmd (store sys3) = None /\
  hw (store sys4)
  = hw (init_store default_config) ++ [RunGait ["CMD_MOVE"; "1"; "0"; "35"; "10"; "0"]].
Proof. vm_compute. repeat split; reflexivity. Qed.

(** C6 as amended, at a worker that has acted on ["fwd"] while the slot was
    overwritten with ["left"]. *)
Lemma slot_cleared_when_equal_witness :
  let s := fst (cmd_route "a" (init_store default_config)) in
  current_cmd s = Some "left" /\
  "left" <> "fwd" /\
  fst (worker_step false s (Clearing "fwd")) = s.
Proof.
  assert (Hne : "left" <> "fwd") by discriminate.
  split; [reflexivity | split; [exact Hne |]].
  destruct (slot_cleared_when_equal false
              (fst (cmd_route "a" (init_store default_config))) "fwd")
    as (_ & _ & _ & H).
  exact (proj1 (H "left" eq_refl Hne)).
Defined.



(** * Further properties *)

(** ** Keys *)

Lemma map_key_to_cmd_unknown key :
  ~ In key known_keys -> map_key_to_cmd key = (None, "Unknown hexapod command").
Proof.
  intros H. unfold map_key_to_cmd.
  split_chain; try reflexivity;
    exfalso; apply H;
    match goal with
    | E : String.eqb _ _ = true |- _ => apply String.eqb_eq in E; subst key
    end; simpl; tauto.
Qed.

Lemma map_key_to_cmd_accepts key :
  In key known_keys -> exists cmd msg, map_key_to_cmd key = (Some cmd, msg).
Proof.
  unfold known_keys. simpl. intros H.
  repeat (destruct H as [<- | H]; [vm_compute; eauto |]). destruct H.
Qed.

(** X1. [map_key_to_cmd] yields a command for exactly the ten keys
    w, s, d, a, j, l, i, k, t, r; any other key, the empty one included,
    yields no command and the text "Unknown hexapod command"; and two keys
    that yield the same command are the same key. *)
Theorem keys_accepted_and_distinct (k1 k2 : string) :
  (fst (map_key_to_cmd k1) <> None <-> In k1 known_keys) /\
  (~ In k1 known_keys -> map_key_to_cmd k1 = (None, "Unknown hexapod command")) /\
  (fst (map_key_to_cmd k1) <> None ->
   fst (map_key_to_cmd k1) = fst (map_key_to_cmd k2) -> k1 = k2).
Proof.
  assert (Hiff : forall k, fst (map_key_to_cmd k) <> None <-> In k known_keys).
  { intros k. split.
    - intros H. destruct (In_dec string_dec k known_keys) as [Hin | Hout];
        [exact Hin |].
      rewrite (map_key_to_cmd_unknown k Hout) in H. simpl in H. congruence.
    - intros H. destruct (map_key_to_cmd_accepts k H) as (cmd & msg & E).
      rewrite E. simpl. discriminate. }
  split; [apply Hiff | split; [apply map_key_to_cmd_unknown |]].
  intros H1 Heq.
  assert (H2 : fst (map_key_to_cmd k2) <> None) by (rewrite <- Heq; exact H1).
  apply Hiff in H1. apply Hiff in H2.
  unfold known_keys in H1, H2. simpl in H1, H2.
  repeat (destruct H1 as [<- | H1];
          [repeat (destruct H2 as [<- | H2];
                   [first [reflexivity | vm_compute in Heq; discriminate] |]);
           destruct H2 |]).
  destruct H1.
Qed.

Lemma keys_accepted_and_distinct_witness :
  fst (map_key_to_cmd "w") <> None /\ ~ In "x" known_keys /\
  map_key_to_cmd "x" = (None, "Unknown hexapod command").
Proof.
  assert (Hx : ~ In "x" known_keys).
  { unfold known_keys. simpl. intros H.
    repeat (destruct H as [H | H]; [discriminate |]). destruct H. }
  split; [simpl; discriminate | split; [exact Hx |]].
  destruct (keys_accepted_and_distinct "x" "w") as (_ & H & _).
  exact (H Hx).
Defined.

(** ** One tick *)

Lemma tick_not_running s : thread_running s = false -> tick s = (s, Exited).
Proof. intros H. unfold tick, worker_step. rewrite H. reflexivity. Qed.

Lemma tick_stopped s :
  thread_running s = true -> STOP_ALL s = true ->
  tick s = (set_current_cmd None (call Relax s), AtLoop).
Proof. intros Hr Hs. unfold tick, worker_step. rewrite Hr, Hs. reflexivity. Qed.

(** X2. A tick of a running worker, with nothing in between, makes at most
    one hardware call, leaves the command slot empty and is back at the loop
    test; a worker whose [thread_running] is false makes no call and leaves
    the loop. *)
Theorem tick_makes_at_most_one_call (s : Store) :
  (thread_running s = true ->
   (exists l, hw (fst (tick s)) = hw s ++ l /\ (length l <= 1)%nat) /\
   current_cmd (fst (tick s)) = None /\
   snd (tick s) = AtLoop) /\
  (thread_running s = false -> tick s = (s, Exited)).
Proof.
  split; [| apply tick_not_running].
  intros Hr. destruct (STOP_ALL s) eqn:Hs.
  - rewrite (tick_stopped s Hr Hs). simpl. repeat split.
    exists [Relax]. split; [reflexivity | simpl; lia].
  - destruct (current_cmd s) as [cmd |] eqn:Hc.
    + rewrite (tick_executes s cmd Hr Hs Hc). simpl. repeat split.
      destruct (In_dec string_dec cmd known_cmds) as [Hin | Hout].
      * destruct (run_action_one_call false cmd s Hin) as [c E].
        exists [c]. split; [exact E | simpl; lia].
      * rewrite (run_action_unknown false cmd s Hout). simpl.
        exists []. split; [symmetry; apply app_nil_r | simpl; lia].
    + rewrite (tick_idle s Hr Hs Hc). simpl. repeat split; try assumption.
      exists []. split; [symmetry; apply app_nil_r | simpl; lia].
Qed.

Lemma tick_makes_at_most_one_call_witness :
  thread_running (init_store default_config) = true /\
  current_cmd (fst (tick (fst (cmd_route "w" (init_store default_config))))) = None.
Proof.
  split; [reflexivity |].
  destruct (tick_makes_at_most_one_call
              (fst (cmd_route "w" (init_store default_config)))) as [H _].
  exact (proj1 (proj2 (H eq_refl))).
Defined.

(** X3. While the stop flag is set, every tick of the running worker calls
    [relax] once more: [n] ticks add exactly [n] relax calls, the flag stays
    set and the slot is empty after the first tick. *)
Theorem stopped_worker_relaxes_every_tick (n : nat) (s : Store) :
  thread_running s = true -> STOP_ALL s = true ->
  hw (ticks n s) = hw s ++ replicate n Relax /\
  STOP_ALL (ticks n s) = true /\
  thread_running (ticks n s) = true /\
  ((0 < n)%nat -> current_cmd (ticks n s) = None).
Proof.
  revert s. induction n as [| n IH]; intros s Hr Hs; simpl.
  - rewrite app_nil_r. repeat split; try assumption. lia.
  - rewrite (tick_stopped s Hr Hs). simpl.
    destruct (IH (set_current_cmd None (call Relax s)) Hr Hs) as (A & B & C & D).
    split; [| split; [exact B | split; [exact C |]]].
    + rewrite A. simpl. rewrite <- app_assoc. reflexivity.
    + intros _. destruct n as [| n']; [reflexivity | apply D; lia].
Qed.

Lemma stopped_worker_relaxes_every_tick_witness :
  let s := fst (stopall_route (init_store default_config)) in
  thread_running s = true /\ STOP_ALL s = true /\
  hw (ticks 3 s) = hw s ++ [Relax; Relax; Relax].
Proof.
  split; [reflexivity | split; [reflexivity |]].
  exact (proj1 (stopped_worker_relaxes_every_tick 3
                  (fst (stopall_route (init_store default_config))) eq_refl eq_refl)).
Defined.

(** ** Stop and resume *)

(** X4. A second [/stopall] changes nothing but the trace, which gets one
    more [relax]; and what [/stopall] leaves behind does not depend on the
    slot, the stop flag or the active preset it found. *)
Theorem stopall_twice_adds_only_a_relax (s : Store) (c : option string)
    (b : bool) (p : option string) :
  fst (stopall_route (fst (stopall_route s))) = call Relax (fst (stopall_route s)) /\
  fst (stopall_route (set_current_cmd c (set_STOP_ALL b (set_active_preset p s))))
  = fst (stopall_route s).
Proof. split; reflexivity. Qed.



(** ** Height keys *)

Lemma press_raise s :
  thread_running s = true ->
  let z := clamp (body_z s + 2) MIN_Z MAX_Z in
  body_z (press "i" s) = z /\
  hw (press "i" s) = hw s ++ [MovePosition 0 0 z] /\
  thread_running (press "i" s) = true.
Proof.
  intros Hr z. unfold press.
  rewrite (tick_executes (fst (cmd_route "i" s)) "raise"); try reflexivity;
    try exact Hr.
  repeat split. exact Hr.
Qed.

Lemma press_lower s :
  thread_running s = true ->
  let z := clamp (body_z s - 2) MIN_Z MAX_Z in
  body_z (press "k" s) = z /\
  hw (press "k" s) = hw s ++ [MovePosition 0 0 z] /\
  thread_running (press "k" s) = true.
Proof.
  intros Hr z. unfold press.
  rewrite (tick_executes (fst (cmd_route "k" s)) "lower"); try reflexivity;
    try exact Hr.
  repeat split. exact Hr.
Qed.

Lemma iter_raise n s :
  thread_running s = true -> MIN_Z <= body_z s <= MAX_Z ->
  thread_running (Nat.iter n (press "i") s) = true /\
  body_z (Nat.iter n (press "i") s) = Z.min MAX_Z (body_z s + 2 * Z.of_nat n) /\
  hw (Nat.iter n (press "i") s)
  = hw s ++ map (fun k => MovePosition 0 0 (Z.min MAX_Z (body_z s + 2 * Z.of_nat k)))
              (seq 1 n).
Proof.
  intros Hr Hz. induction n as [| n (IH1 & IH2 & IH3)].
  - simpl. rewrite app_nil_r. repeat split; try assumption. lia.
  - rewrite seq_S, map_app, !Nat.iter_succ.
    destruct (press_raise (Nat.iter n (press "i") s) IH1) as (A & B & C).
    assert (E : clamp (body_z (Nat.iter n (press "i") s) + 2) MIN_Z MAX_Z
                = Z.min MAX_Z (body_z s + 2 * Z.of_nat (S n))).
    { rewrite IH2. unfold clamp, MIN_Z, MAX_Z in *. lia. }
    rewrite E in A, B. split; [exact C | split; [exact A |]].
    rewrite B, IH3, <- app_assoc. reflexivity.
Qed.

Lemma iter_lower n s :
  thread_running s = true -> MIN_Z <= body_z s <= MAX_Z ->
  thread_running (Nat.iter n (press "k") s) = true /\
  body_z (Nat.iter n (press "k") s) = Z.max MIN_Z (body_z s - 2 * Z.of_nat n) /\
  hw (Nat.iter n (press "k") s)
  = hw s ++ map (fun k => MovePosition 0 0 (Z.max MIN_Z (body_z s - 2 * Z.of_nat k)))
              (seq 1 n).
Proof.
  intros Hr Hz. induction n as [| n (IH1 & IH2 & IH3)].
  - simpl. rewrite app_nil_r. repeat split; try assumption. lia.
  - rewrite seq_S, map_app, !Nat.iter_succ.
    destruct (press_lower (Nat.iter n (press "k") s) IH1) as (A & B & C).
    assert (E : clamp (body_z (Nat.iter n (press "k") s) - 2) MIN_Z MAX_Z
                = Z.max MIN_Z (body_z s - 2 * Z.of_nat (S n))).
    { rewrite IH2. unfold clamp, MIN_Z, MAX_Z in *. lia. }
    rewrite E in A, B. split; [exact C | split; [exact A |]].
    rewrite B, IH3, <- app_assoc. reflexivity.
Qed.

(** X6. Pressing the raise key [n] times, each press followed by a tick of
    the running worker, takes a height [z] within the limits to
    [min(MAX_Z, z + 2n)] and makes exactly [n] pose calls, the k-th at
    [(0, 0, min(MAX_Z, z + 2k))]; the lower key does the same downwards,
    ending at [max(MIN_Z, z - 2n)]. *)
Theorem height_keys_step_and_saturate (n : nat) (s : Store) :
  thread_running s = true -> MIN_Z <= body_z s <= MAX_Z ->
  (body_z (Nat.iter n (press "i") s) = Z.min MAX_Z (body_z s + 2 * Z.of_nat n) /\
   hw (Nat.iter n (press "i") s)
   = hw s ++ map (fun k => MovePosition 0 0 (Z.min MAX_Z (body_z s + 2 * Z.of_nat k)))
               (seq 1 n)) /\
  (body_z (Nat.iter n (press "k") s) = Z.max MIN_Z (body_z s - 2 * Z.of_nat n) /\
   hw (Nat.iter n (press "k") s)
   = hw s ++ map (fun k => MovePosition 0 0 (Z.max MIN_Z (body_z s - 2 * Z.of_nat k)))
               (seq 1 n)).
Proof.
  intros Hr Hz.
  destruct (iter_raise n s Hr Hz) as (_ & A & B).
  destruct (iter_lower n s Hr Hz) as (_ & C & D).
  repeat split; assumption.
Qed.

Lemma height_keys_step_and_saturate_witness :
  thread_running (init_store default_config) = true /\
  MIN_Z <= body_z (init_store default_config) <= MAX_Z /\
  body_z (Nat.iter 20 (press "i") (init_store default_config)) = Z.min MAX_Z (15 + 2 * 20).
Proof.
  assert (Hz : MIN_Z <= body_z (init_store default_config) <= MAX_Z)
    by (simpl; unfold MIN_Z, MAX_Z, RESET_Z; lia).
  split; [reflexivity | split; [exact Hz |]].
  exact (proj1 (proj1 (height_keys_step_and_saturate 20 (init_store default_config)
                         eq_refl Hz))).
Defined.

(** ** Pan and tilt requests *)

Section PanTilt.

Context (cfg : Config).

Lemma pan_tilt_apply_frame pan tilt s :
  let s' := fst (pan_tilt_apply cfg pan tilt s) in
  thread_running s' = thread_running s /\
  snd (pan_tilt_apply cfg pan tilt s) = (pan, tilt).
Proof.
  unfold pan_tilt_apply. cbv zeta. unfold fst, snd.
  set (s1 := set_tilt_angle tilt (set_pan_angle pan s)).
  set (s2 := guarded_set_servo_angle PAN_PORT (with_offset cfg PAN_PORT pan) s1).
  destruct (guarded_keeps TILT_PORT (with_offset cfg TILT_PORT tilt) s2)
    as (_ & _ & _ & A & _).
  destruct (guarded_keeps PAN_PORT (with_offset cfg PAN_PORT pan) s1)
    as (_ & _ & _ & B & _).
  fold s2 in B. rewrite A, B. split; reflexivity.
Qed.

(** X7. A [/pt] request changes nothing in the shared state but the two
    angles and the trace: height, command slot, stop flag, active preset and
    running flag are as before; and the pair it returns is the pair it has
    stored. *)
Theorem pan_tilt_touches_only_angles (cmd : string) (n : Z) (s : Store) :
  let s' := fst (handle_pan_tilt cfg cmd n s) in
  body_z s' = body_z s /\
  current_cmd s' = current_cmd s /\
  STOP_ALL s' = STOP_ALL s /\
  active_preset s' = active_preset s /\
  thread_running s' = thread_running s /\
  snd (handle_pan_tilt cfg cmd n s) = (pan_angle s', tilt_angle s').
Proof.
  destruct (handle_pan_tilt_cases cfg cmd n s) as [[_ E] | [_ (pan & tilt & E)]];
    rewrite E.
  - simpl. repeat split; reflexivity.
  - destruct (pan_tilt_apply_fields cfg pan tilt s) as (A1 & A2 & A3 & A4 & A5 & A6).
    destruct (pan_tilt_apply_frame pan tilt s) as (B1 & B2).
    cbv zeta. rewrite A1, A2, A3, A4, A5, A6, B1, B2. repeat split; reflexivity.
Qed.

Lemma pan_left_angles n s :
  let s' := fst (handle_pan_tilt cfg "pan_left" n s) in
  pan_angle s' = _clamp (pan_angle s - n) (PAN_MIN cfg) (PAN_MAX cfg) /\
  tilt_angle s' = tilt_angle s.
Proof.
  change (handle_pan_tilt cfg "pan_left" n s)
    with (pan_tilt_apply cfg (_clamp (pan_angle s - n) (PAN_MIN cfg) (PAN_MAX cfg))
            (tilt_angle s) s).
  destruct (pan_tilt_apply_fields cfg
              (_clamp (pan_angle s - n) (PAN_MIN cfg) (PAN_MAX cfg)) (tilt_angle s) s)
    as (_ & A & B & _).
  split; assumption.
Qed.

Lemma pan_right_angles n s :
  let s' := fst (handle_pan_tilt cfg "pan_right" n s) in
  pan_angle s' = _clamp (pan_angle s + n) (PAN_MIN cfg) (PAN_MAX cfg) /\
  tilt_angle s' = tilt_angle s.
Proof.
  change (handle_pan_tilt cfg "pan_right" n s)
    with (pan_tilt_apply cfg (_clamp (pan_angle s + n) (PAN_MIN cfg) (PAN_MAX cfg))
            (tilt_angle s) s).
  destruct (pan_tilt_apply_fields cfg
              (_clamp (pan_angle s + n) (PAN_MIN cfg) (PAN_MAX cfg)) (tilt_angle s) s)
    as (_ & A & B & _).
  split; assumption.
Qed.

Lemma tilt_up_angles n s :
  let s' := fst (handle_pan_tilt cfg "tilt_up" n s) in
  pan_angle s' = pan_angle s /\
  tilt_angle s' = _clamp (tilt_angle s - n) (TILT_MIN cfg) (TILT_MAX cfg).
Proof.
  change (handle_pan_tilt cfg "tilt_up" n s)
    with (pan_tilt_apply cfg (pan_angle s)
            (_clamp (tilt_angle s - n) (TILT_MIN cfg) (TILT_MAX cfg)) s).
  destruct (pan_tilt_apply_fields cfg (pan_angle s)
              (_clamp (tilt_angle s - n) (TILT_MIN cfg) (TILT_MAX cfg)) s)
    as (_ & A & B & _).
  split; assumption.
Qed.

Lemma tilt_down_angles n s :
  let s' := fst (handle_pan_tilt cfg "tilt_down" n s) in
  pan_angle s' = pan_angle s /\
  tilt_angle s' = _clamp (tilt_angle s + n) (TILT_MIN cfg) (TILT_MAX cfg).
Proof.
  change (handle_pan_tilt cfg "tilt_down" n s)
    with (pan_tilt_apply cfg (pan_angle s)
            (_clamp (tilt_angle s + n) (TILT_MIN cfg) (TILT_MAX cfg)) s).
  destruct (pan_tilt_apply_fields cfg (pan_angle s)
              (_clamp (tilt_angle s + n) (TILT_MIN cfg) (TILT_MAX cfg)) s)
    as (_ & A & B & _).
  split; assumption.
Qed.

(** X8. Repeated pan requests saturate at the limits.  From a pan angle
    within the limits and with a step that is not negative, [n] requests
    ["pan_left"] give [max(PAN_MIN, pan - n*step)] and [n] requests
    ["pan_right"] give [min(PAN_MAX, pan + n*step)], the tilt angle being
    left alone; once at a limit the angle stays there. *)
Theorem repeated_pan_saturates (n : nat) (step : Z) (s : Store) :
  PAN_MIN cfg <= pan_angle s <= PAN_MAX cfg -> 0 <= step ->
  let left := Nat.iter n (fun x => fst (handle_pan_tilt cfg "pan_left" step x)) s in
  let right := Nat.iter n (fun x => fst (handle_pan_tilt cfg "pan_right" step x)) s in
  pan_angle left = Z.max (PAN_MIN cfg) (pan_angle s - Z.of_nat n * step) /\
  tilt_angle left = tilt_angle s /\
  pan_angle right = Z.min (PAN_MAX cfg) (pan_angle s + Z.of_nat n * step) /\
  tilt_angle right = tilt_angle s.
Proof.
  intros Hp Hstep. cbv zeta. induction n as [| n (IH1 & IH2 & IH3 & IH4)].
  - simpl. repeat split; lia.
  - rewrite !Nat.iter_succ.
    destruct (pan_left_angles step
                (Nat.iter n (fun x => fst (handle_pan_tilt cfg "pan_left" step x)) s))
      as (A1 & A2).
    destruct (pan_right_angles step
                (Nat.iter n (fun x => fst (handle_pan_tilt cfg "pan_right" step x)) s))
      as (B1 & B2).
    rewrite A1, A2, B1, B2, IH1, IH2, IH3, IH4. unfold _clamp.
    replace (Z.of_nat (S n) * step) with (Z.of_nat n * step + step) by lia.
    assert (0 <= Z.of_nat n * step) by lia.
    repeat split; lia.
Qed.

(** X9. Repeated tilt requests saturate in the same way: ["tilt_up"]
    lowers the stored angle down to [TILT_MIN], ["tilt_down"] raises it up
    to [TILT_MAX], and the pan angle is left alone. *)
Theorem repeated_tilt_saturates (n : nat) (step : Z) (s : Store) :
  TILT_MIN cfg <= tilt_angle s <= TILT_MAX cfg -> 0 <= step ->
  let up := Nat.iter n (fun x => fst (handle_pan_tilt cfg "tilt_up" step x)) s in
  let down := Nat.iter n (fun x => fst (handle_pan_tilt cfg "tilt_down" step x)) s in
  tilt_angle up = Z.max (TILT_MIN cfg) (tilt_angle s - Z.of_nat n * step) /\
  pan_angle up = pan_angle s /\
  tilt_angle down = Z.min (TILT_MAX cfg) (tilt_angle s + Z.of_nat n * step) /\
  pan_angle down = pan_angle s.
Proof.
  intros Hp Hstep. cbv zeta. induction n as [| n (IH1 & IH2 & IH3 & IH4)].
  - simpl. repeat split; lia.
  - rewrite !Nat.iter_succ.
    destruct (tilt_up_angles step
                (Nat.iter n (fun x => fst (handle_pan_tilt cfg "tilt_up" step x)) s))
      as (A1 & A2).
    destruct (tilt_down_angles step
                (Nat.iter n (fun x => fst (handle_pan_tilt cfg "tilt_down" step x)) s))
      as (B1 & B2).
    rewrite A1, A2, B1, B2, IH1, IH2, IH3, IH4. unfold _clamp.
    replace (Z.of_nat (S n) * step) with (Z.of_nat n * step + step) by lia.
    assert (0 <= Z.of_nat n * step) by lia.
    repeat split; lia.
Qed.

(** X10. A pan step that stays within the limits is undone by the opposite
    request with the same step, and likewise for tilt: no drift is
    introduced by the clamping. *)
Theorem pan_tilt_round_trip (step : Z) (s : Store) :
  (PAN_MIN cfg <= pan_angle s <= PAN_MAX cfg ->
   PAN_MIN cfg <= pan_angle s - step <= PAN_MAX cfg ->
   let s' := fst (handle_pan_tilt cfg "pan_right" step
                    (fst (handle_pan_tilt cfg "pan_left" step s))) in
   pan_angle s' = pan_angle s /\ tilt_angle s' = tilt_angle s) /\
  (TILT_MIN cfg <= tilt_angle s <= TILT_MAX cfg ->
   TILT_MIN cfg <= tilt_angle s - step <= TILT_MAX cfg ->
   let s' := fst (handle_pan_tilt cfg "tilt_down" step
                    (fst (handle_pan_tilt cfg "tilt_up" step s))) in
   pan_angle s' = pan_angle s /\ tilt_angle s' = tilt_angle s).
Proof.
  split; intros H1 H2; cbv zeta.
  - destruct (pan_left_angles step s) as (A1 & A2).
    destruct (pan_right_angles step (fst (handle_pan_tilt cfg "pan_left" step s)))
      as (B1 & B2).
    rewrite B1, B2, A1, A2. unfold _clamp. split; lia.
  - destruct (tilt_up_angles step s) as (A1 & A2).
    destruct (tilt_down_angles step (fst (handle_pan_tilt cfg "tilt_up" step s)))
      as (B1 & B2).
    rewrite B1, B2, A1, A2. unfold _clamp. split; lia.
Qed.

Lemma handle_pan_tilt_other cmd n s :
  ~ In cmd pan_tilt_cmds ->
  handle_pan_tilt cfg cmd n s = pan_tilt_apply cfg (pan_angle s) (tilt_angle s) s.
Proof.
  intros H. unfold handle_pan_tilt. cbv zeta.
  split_chain; try reflexivity;
    exfalso; apply H;
    match goal with
    | E : String.eqb _ _ = true |- _ => apply String.eqb_eq in E; subst cmd
    end; simpl; tauto.
Qed.

(** X11. The two requests that move nothing.  ["relax"] keeps both angles,
    makes no servo write and calls [relax] exactly once, whether the stop
    gate is closed or not.  A command that is none of the six known ones
    keeps both angles too, but is not rejected: with the gate open it sends
    the two current angles to the servos again, and with the gate closed it
    makes no call at all. *)
Theorem pan_tilt_relax_and_unknown (cmd : string) (n : Z) (s : Store) :
  (let s' := fst (handle_pan_tilt cfg "relax" n s) in
   hw s' = hw s ++ [Relax] /\ pan_angle s' = pan_angle s /\
   tilt_angle s' = tilt_angle s) /\
  (~ In cmd pan_tilt_cmds ->
   let s' := fst (handle_pan_tilt cfg cmd n s) in
   pan_angle s' = pan_angle s /\ tilt_angle s' = tilt_angle s /\
   (STOP_ALL s = true -> hw s' = hw s) /\
   (STOP_ALL s = false ->
    hw s' = hw s ++ [SetServoAngle PAN_PORT (with_offset cfg PAN_PORT (pan_angle s));
                     SetServoAngle TILT_PORT (with_offset cfg TILT_PORT (tilt_angle s))])).
Proof.
  split; [simpl; repeat split; reflexivity |].
  intros H. cbv zeta. rewrite (handle_pan_tilt_other cmd n s H).
  destruct (pan_tilt_apply_fields cfg (pan_angle s) (tilt_angle s) s)
    as (_ & A & B & _).
  split; [exact A | split; [exact B | split]].
  - intros Hs. rewrite pan_tilt_apply_closed by exact Hs. reflexivity.
  - intros Hs. rewrite pan_tilt_apply_open by exact Hs. simpl.
    rewrite <- app_assoc. reflexivity.
Qed.

End PanTilt.

Lemma repeated_pan_saturates_witness :
  PAN_MIN default_config <= pan_angle (init_store default_config) <= PAN_MAX default_config /\
  0 <= 50 /\
  pan_angle (Nat.iter 3 (fun x => fst (handle_pan_tilt default_config "pan_left" 50 x))
               (init_store default_config))
  = Z.max (PAN_MIN default_config) (90 - Z.of_nat 3 * 50).
Proof.
  assert (Hp : PAN_MIN default_config <= pan_angle (init_store default_config)
               <= PAN_MAX default_config) by (simpl; lia).
  assert (Hs : 0 <= 50) by lia.
  split; [exact Hp | split; [exact Hs |]].
  exact (proj1 (repeated_pan_saturates default_config 3 50 (init_store default_config) Hp Hs)).
Defined.

Lemma repeated_tilt_saturates_witness :
  TILT_MIN default_config <= tilt_angle (init_store default_config)
  <= TILT_MAX default_config /\
  0 <= 40 /\
  tilt_angle (Nat.iter 4 (fun x => fst (handle_pan_tilt default_config "tilt_down" 40 x))
                (init_store default_config))
  = Z.min (TILT_MAX default_config) (90 + Z.of_nat 4 * 40).
Proof.
  assert (Hp : TILT_MIN default_config <= tilt_angle (init_store default_config)
               <= TILT_MAX default_config) by (simpl; lia).
  assert (Hs : 0 <= 40) by lia.
  split; [exact Hp | split; [exact Hs |]].
  exact (proj1 (proj2 (proj2 (repeated_tilt_saturates default_config 4 40 (init_store default_config)
                                Hp Hs)))).
Defined.

Lemma pan_tilt_round_trip_witness :
  PAN_MIN default_config <= pan_angle (init_store default_config) <= PAN_MAX default_config /\
  PAN_MIN default_config <= pan_angle (init_store default_config) - 5
  <= PAN_MAX default_config /\
  pan_angle (fst (handle_pan_tilt default_config "pan_right" 5
                    (fst (handle_pan_tilt default_config "pan_left" 5
                            (init_store default_config)))))
  = pan_angle (init_store default_config).
Proof.
  assert (H1 : PAN_MIN default_config <= pan_angle (init_store default_config)
               <= PAN_MAX default_config) by (simpl; lia).
  assert (H2 : PAN_MIN default_config <= pan_angle (init_store default_config) - 5
               <= PAN_MAX default_config) by (simpl; lia).
  split; [exact H1 | split; [exact H2 |]].
  exact (proj1 (proj1 (pan_tilt_round_trip default_config 5 (init_store default_config)) H1 H2)).
Defined.

Lemma pan_tilt_relax_and_unknown_witness :
  ~ In "wiggle" pan_tilt_cmds /\
  STOP_ALL (init_store default_config) = false /\
  hw (fst (handle_pan_tilt default_config "wiggle" 3 (init_store default_config)))
  = hw (init_store default_config)
    ++ [SetServoAngle PAN_PORT (with_offset default_config PAN_PORT 90);
        SetServoAngle TILT_PORT (with_offset default_config TILT_PORT 90)].
Proof.
  assert (Hx : ~ In "wiggle" pan_tilt_cmds).
  { unfold pan_tilt_cmds. simpl. intros H.
    repeat (destruct H as [H | H]; [discriminate |]). destruct H. }
  split; [exact Hx | split; [reflexivity |]].
  destruct (pan_tilt_relax_and_unknown default_config "wiggle" 3
              (init_store default_config)) as (_ & H).
  exact (proj2 (proj2 (proj2 (H Hx))) eq_refl).
Defined.

(** ** Who calls what *)

Section Origins.

Context (cfg : Config).

Lemma run_action_calls raises cmd s :
  extends (fun c => worker_call c = true /\ leg_call_ok c) s (fst (run_action raises cmd s)).
Proof.
  unfold run_action. split_chain; simpl;
    try (eapply extends_one;
         [reflexivity
         | split; [reflexivity
                  | simpl; first [tauto
                                 | repeat split; try reflexivity;
                                   apply clamp_range; unfold MIN_Z, MAX_Z; lia]]]).
  apply extends_refl.
Qed.

Lemma worker_step_calls raises s w :
  extends (fun c => worker_call c = true /\ leg_call_ok c) s (fst (worker_step raises s w)).
Proof.
  destruct w; simpl; try apply extends_refl.
  - destruct (thread_running s); simpl; [| apply extends_refl].
    destruct (STOP_ALL s).
    + destruct raises; simpl;
        (eapply extends_one; [reflexivity | split; [reflexivity | exact I]]).
    + destruct (current_cmd s); simpl; apply extends_refl.
  - pose proof (run_action_calls raises cmd s) as H.
    destruct (run_action raises cmd s). exact H.
  - destruct (slot_is cmd s); simpl; apply extends_same_hw; reflexivity.
Qed.

Lemma exec_instr_calls i k s :
  extends (fun c => effect_call c = true) s (fst (fst (exec_instr cfg i k s))).
Proof.
  destruct i; simpl; try trace_step.
  unfold pt_to. destruct pan, tilt; simpl; trace_step.
Qed.

Lemma task_step_calls t s :
  extends (fun c => effect_call c = true) s (fst (fst (task_step cfg t s))).
Proof.
  unfold task_step. destruct (writes t) as [| [channel angle] ws].
  - destruct (script t) as [| i k]; [apply extends_refl | apply exec_instr_calls].
  - simpl. unfold guarded_set_servo_angle. destruct (STOP_ALL s); trace_step.
Qed.

Lemma handle_pan_tilt_calls cmd n s :
  extends (fun c => leg_call c = false) s (fst (handle_pan_tilt cfg cmd n s)).
Proof.
  destruct (handle_pan_tilt_cases cfg cmd n s) as [[_ E] | [_ (pan & tilt & E)]];
    rewrite E.
  - simpl. trace_step.
  - destruct (STOP_ALL s) eqn:Hs.
    + rewrite pan_tilt_apply_closed by exact Hs. trace_step.
    + rewrite pan_tilt_apply_open by exact Hs. simpl.
      exists [SetServoAngle PAN_PORT (with_offset cfg PAN_PORT pan);
              SetServoAngle TILT_PORT (with_offset cfg TILT_PORT tilt)].
      split; [simpl; rewrite <- app_assoc; reflexivity | repeat constructor].
Qed.

Lemma effect_call_not_leg c : effect_call c = true -> leg_call c = false.
Proof. destruct c; simpl; congruence. Qed.

Lemma not_leg_call_ok c : leg_call c = false -> leg_call_ok c.
Proof. destruct c; simpl; try discriminate; intros; exact I. Qed.

(** X12. Division of labour.  A step of the worker issues only gait, pose
    and relax calls; a step of a sequencer thread issues only servo-angle,
    LED and buzzer calls; [/cmd] and [/preset] issue no hardware call at all;
    and no other request issues a gait or pose call.  So the legs are moved
    by the worker alone. *)
Theorem calls_by_origin (sys : System) (ev : event) :
  match ev with
  | WorkerStep _ =>
      extends (fun c => worker_call c = true) (store sys) (store (step cfg sys ev))
  | TaskStep _ =>
      extends (fun c => effect_call c = true) (store sys) (store (step cfg sys ev))
  | CmdReq _ | PresetReq _ =>
      hw (store (step cfg sys ev)) = hw (store sys)
  | _ =>
      extends (fun c => leg_call c = false) (store sys) (store (step cfg sys ev))
  end.
Proof.
  destruct ev as [key | | cmd n | mode r g b | mode | name | raises | i].
  - simpl. apply cmd_route_keeps.
  - simpl. trace_step.
  - simpl. apply handle_pan_tilt_calls.
  - unfold step, led_route.
    pose proof (exec_instr_calls (led_set mode r g b) [] (store sys)) as H.
    destruct (exec_instr cfg (led_set mode r g b) [] (store sys)) as [[s1 t1] new].
    simpl in *. eapply extends_weaken; [apply effect_call_not_leg | exact H].
  - unfold step, buzzer_route. split_chain; simpl; trace_step.
  - unfold step, preset_route. destruct (known_preset name); reflexivity.
  - rewrite step_worker_store.
    eapply extends_weaken; [| apply worker_step_calls]. intros c [H _]. exact H.
  - unfold step. destruct (tasks sys !! i) as [t |]; [| apply extends_refl].
    pose proof (task_step_calls t (store sys)) as H.
    destruct (task_step cfg t (store sys)) as [[s1 t1] new]. exact H.
Qed.

Lemma step_leg_calls_ok sys ev :
  extends leg_call_ok (store sys) (store (step cfg sys ev)).
Proof.
  destruct ev as [key | | cmd n | mode r g b | mode | name | raises | i].
  - simpl. apply extends_same_hw. apply cmd_route_keeps.
  - simpl. trace_step.
  - simpl. eapply extends_weaken; [apply not_leg_call_ok | apply handle_pan_tilt_calls].
  - unfold step, led_route.
    pose proof (exec_instr_calls (led_set mode r g b) [] (store sys)) as H.
    destruct (exec_instr cfg (led_set mode r g b) [] (store sys)) as [[s1 t1] new].
    simpl in *. eapply extends_weaken; [| exact H].
    intros c Hc. apply not_leg_call_ok, effect_call_not_leg, Hc.
  - unfold step, buzzer_route. split_chain; simpl; trace_step.
  - unfold step, preset_route.
    destruct (known_preset name); apply extends_same_hw; reflexivity.
  - rewrite step_worker_store.
    eapply extends_weaken; [| apply worker_step_calls]. intros c [_ H]. exact H.
  - unfold step. destruct (tasks sys !! i) as [t |]; [| apply extends_refl].
    pose proof (task_step_calls t (store sys)) as H.
    destruct (task_step cfg t (store sys)) as [[s1 t1] new]. simpl in *.
    eapply extends_weaken; [| exact H].
    intros c Hc. apply not_leg_call_ok, effect_call_not_leg, Hc.
Qed.

(** X13. Whatever is requested and however the threads interleave, every
    pose call on the trace is at [x = 0], [y = 0] with [z] within
    [MIN_Z, MAX_Z], and every gait call carries one of the six fixed
    parameter lists of the worker. *)
Theorem leg_calls_within_limits (evs : list event) :
  Forall leg_call_ok (hw (store (run cfg evs (init_system cfg)))).
Proof.
  assert (H0 : Forall leg_call_ok (hw (store (init_system cfg)))).
  { simpl. repeat constructor; unfold MIN_Z, MAX_Z, RESET_Z; lia. }
  generalize dependent (init_system cfg).
  induction evs as [| ev evs IH]; intros sys H0; simpl; [exact H0 |].
  apply IH. destruct (step_leg_calls_ok sys ev) as (l & E & Hl).
  rewrite E. apply Forall_app. split; assumption.
Qed.

(** X14. The worker writes nothing but the command slot, the height and
    the trace: pan and tilt angles, stop flag, active preset and running
    flag are the same after any of its steps, also a failing one; and the
    height changes only in the step that acts on a command. *)
Theorem worker_touches_only_slot_and_height (raises : bool) (s : Store) (w : wphase) :
  let s' := fst (worker_step raises s w) in
  pan_angle s' = pan_angle s /\
  tilt_angle s' = tilt_angle s /\
  STOP_ALL s' = STOP_ALL s /\
  active_preset s' = active_preset s /\
  thread_running s' = thread_running s /\
  (holding w = false -> body_z s' = body_z s).
Proof.
  destruct w; simpl.
  - destruct (thread_running s) eqn:Hr; simpl; [| repeat split; congruence].
    destruct (STOP_ALL s) eqn:Hs.
    + destruct raises; simpl; repeat split; congruence.
    + destruct (current_cmd s); simpl; repeat split; congruence.
  - destruct (run_action_flags raises cmd s) as (A & B & C).
    destruct (run_action_pan_tilt raises cmd s) as (D & E).
    destruct (run_action raises cmd s) as [s1 exn]. simpl in *.
    repeat split; try assumption. discriminate.
  - destruct (slot_is cmd s); simpl; repeat split; reflexivity.
  - repeat split; reflexivity.
  - repeat split; reflexivity.
Qed.

End Origins.

Lemma worker_touches_only_slot_and_height_witness :
  holding (Clearing "fwd") = false /\
  body_z (fst (worker_step false (init_store default_config) (Clearing "fwd")))
  = body_z (init_store default_config).
Proof.
  split; [reflexivity |].
  destruct (worker_touches_only_slot_and_height false (init_store default_config)
              (Clearing "fwd")) as (_ & _ & _ & _ & _ & H).
  exact (H eq_refl).
Defined.

(** ** Offsets *)

(** X15. [with_offset] keeps the order of the requested angles; a port that
    has no entry in the offset table is treated as offset 0, so an angle
    already within [0, 180] is sent as it is; and applying it to its own
    result changes nothing for such a port. *)
Theorem with_offset_monotone_and_default (cfg : Config) (port a b : Z) :
  (a <= b -> with_offset cfg port a <= with_offset cfg port b) /\
  (OFFSETS cfg !! port = None ->
   (0 <= a <= 180 -> with_offset cfg port a = a) /\
   with_offset cfg port (with_offset cfg port a) = with_offset cfg port a).
Proof.
  assert (Hform : forall x,
             with_offset cfg port x
             = Z.min 180 (Z.max 0 (x + default 0 (OFFSETS cfg !! port)))).
  { intros x. unfold with_offset. cbv zeta.
    destruct (x + default 0 (OFFSETS cfg !! port) <? 0) eqn:E1.
    - apply Z.ltb_lt in E1. simpl. lia.
    - apply Z.ltb_ge in E1.
      destruct (180 <? x + default 0 (OFFSETS cfg !! port)) eqn:E2.
      + apply Z.ltb_lt in E2. lia.
      + apply Z.ltb_ge in E2. lia. }
  split.
  - intros Hab. rewrite !Hform. lia.
  - intros Hnone. rewrite !Hform, Hnone. simpl. split; [intros Ha |]; lia.
Qed.

Lemma with_offset_monotone_and_default_witness :
  OFFSETS default_config !! 24 = None /\ 0 <= 90 <= 180 /\
  with_offset default_config 24 90 = 90.
Proof.
  assert (Ha : 0 <= 90 <= 180) by lia.
  split; [reflexivity | split; [exact Ha |]].
  destruct (with_offset_monotone_and_default default_config 24 90 90) as (_ & H).
  exact (proj1 (H eq_refl) Ha).
Defined.

(** ** Sensors *)

(** X16. [/sensors] reports each sensor on its own.  The battery field
    holds a value exactly when the battery read succeeded, whatever the
    ultrasonic read did, and the other way round; a list or tuple from a
    driver counts by its first item, and an empty one is a failure of that
    sensor only; [ok] is true, and the error text absent, exactly when both
    reads succeeded; the status is 200 in every case. *)
Theorem sensors_reported_independently (num : Type) (bat dist : outcome (raw num)) :
  let r := sensors_route bat dist in
  (battery r = match read_value bat with Returned v => Some v | Raised _ => None end) /\
  (distance r = match read_value dist with Returned v => Some v | Raised _ => None end) /\
  (sensors_ok r = true <-> battery r <> None /\ distance r <> None) /\
  (error r = None <-> sensors_ok r = true) /\
  sensors_status r = 200 /\
  read_value (Returned (PyList ([] : list num))) = Raised "list index out of range" /\
  (forall v rest, read_value (Returned (PyTuple (v :: rest))) = Returned (v : num)).
Proof.
  unfold sensors_route.
  destruct (read_value bat) as [vb | eb]; destruct (read_value dist) as [vd | ed];
    simpl; repeat split; intros; try congruence; try discriminate;
    try (intros; discriminate);
    try match goal with
        | H : _ /\ _ |- _ => destruct H; congruence
        end.
Qed.

(** ** Unknown modes *)

(** X17. An LED mode that is none of the six known ones is served as
    ["solid"]: one colour wipe with the requested colour and no new thread.
    A buzzer mode that is none of the three known ones changes nothing and
    answers "Unknown buzzer mode". *)
Theorem unknown_modes_fall_back (cfg : Config) (mode : string) (r g b : Z)
    (sys : System) :
  (~ In mode ["off"; "solid"; "blink"; "breathe"; "police"; "rainbow"] ->
   led_route cfg mode r g b sys
   = {| store := call (ColorWipe (Rgb r g b)) (store sys);
        worker := worker sys; tasks := tasks sys |}) /\
  (~ In mode ["pulse"; "on"; "off"] ->
   buzzer_route mode sys = (sys, "Unknown buzzer mode")).
Proof.
  split; intros H.
  - unfold led_route, led_set.
    split_chain;
      try (exfalso; apply H;
           match goal with
           | E : String.eqb _ _ = true |- _ => apply String.eqb_eq in E; subst mode
           end; simpl; tauto).
    simpl. rewrite app_nil_r. reflexivity.
  - unfold buzzer_route.
    split_chain; try reflexivity;
      exfalso; apply H;
      match goal with
      | E : String.eqb _ _ = true |- _ => apply String.eqb_eq in E; subst mode
      end; simpl; tauto.
Qed.

Lemma unknown_modes_fall_back_witness :
  ~ In "disco" ["pulse"; "on"; "off"] /\
  buzzer_route "disco" (init_system default_config)
  = (init_system default_config, "Unknown buzzer mode").
Proof.
  assert (Hx : ~ In "disco" ["pulse"; "on"; "off"]).
  { simpl. intros H. repeat (destruct H as [H | H]; [discriminate |]). destruct H. }
  split; [exact Hx |].
  exact (proj2 (unknown_modes_fall_back default_config "disco" 0 0 0
                  (init_system default_config)) Hx).
Defined.

(** ** Sequencer threads come to an end *)

Section Threads.

Context (cfg : Config).

Lemma exec_instr_fuel i k s :
  (fuel (snd (fst (exec_instr cfg i k s))) < fuel {| writes := []; script := i :: k |})%nat.
Proof.
  unfold fuel. destruct i; simpl; try lia.
  destruct (STOP_ALL s); [rewrite length_drop |]; lia.
Qed.

Lemma task_step_fuel t s :
  (fuel (snd (fst (task_step cfg t s))) <= fuel t - 1)%nat.
Proof.
  unfold task_step. destruct t as [ws sc]. simpl.
  destruct ws as [| [channel angle] ws].
  - destruct sc as [| i k]; [unfold fuel; simpl; lia |].
    pose proof (exec_instr_fuel i k s) as H. lia.
  - unfold fuel. simpl. lia.
Qed.

Lemma fuel_zero t : fuel t = O -> t = thread [].
Proof.
  destruct t as [ws sc]. unfold fuel, thread. simpl. intros H.
  destruct ws; [| simpl in H; lia]. destruct sc; [reflexivity | simpl in H; lia].
Qed.

(** A step that is not a step of thread [i] leaves thread [i] as it is. *)
Lemma step_keeps_other_thread sys ev i t :
  task_steps_in i [ev] = O -> tasks sys !! i = Some t ->
  tasks (step cfg sys ev) !! i = Some t.
Proof.
  intros Hev Ht.
  destruct ev as [key | | cmd n | mode r g b | mode | name | raises | j]; simpl;
    try exact Ht.
  - unfold led_route.
    destruct (exec_instr cfg (led_set mode r g b) [] (store sys)) as [[s1 t1] new].
    simpl. apply lookup_app_l_Some. exact Ht.
  - unfold buzzer_route. split_chain; simpl; try exact Ht.
    apply lookup_app_l_Some. exact Ht.
  - unfold preset_route. destruct (known_preset name); simpl; try exact Ht.
    apply lookup_app_l_Some. exact Ht.
  - destruct (worker_step raises (store sys) (worker sys)). exact Ht.
  - simpl in Hev. destruct (Nat.eqb i j) eqn:E; [discriminate |].
    apply Nat.eqb_neq in E.
    destruct (tasks sys !! j) as [tj |]; [| exact Ht].
    destruct (task_step cfg tj (store sys)) as [[s1 t1] new]. simpl.
    apply lookup_app_l_Some. rewrite list_lookup_insert_ne by congruence. exact Ht.
Qed.

Lemma step_own_thread sys i t :
  tasks sys !! i = Some t ->
  tasks (step cfg sys (TaskStep i)) !! i = Some (snd (fst (task_step cfg t (store sys)))).
Proof.
  intros Ht. simpl. rewrite Ht.
  destruct (task_step cfg t (store sys)) as [[s1 t1] new]. simpl.
  apply lookup_app_l_Some. apply list_lookup_insert_eq.
  apply lookup_lt_Some in Ht. exact Ht.
Qed.

Lemma run_spends_fuel evs : forall sys i t,
  tasks sys !! i = Some t ->
  exists t', tasks (run cfg evs sys) !! i = Some t' /\
             (fuel t' <= fuel t - task_steps_in i evs)%nat.
Proof.
  induction evs as [| ev evs IH]; intros sys i t Ht.
  - exists t. split; [exact Ht | simpl; lia].
  - destruct (task_steps_in i [ev]) eqn:Hev.
    + pose proof (step_keeps_other_thread sys ev i t Hev Ht) as H1.
      destruct (IH (step cfg sys ev) i t H1) as (t' & A & B).
      exists t'. split; [exact A |].
      assert (task_steps_in i (ev :: evs) = task_steps_in i evs).
      { destruct ev; simpl in *; try reflexivity.
        destruct (Nat.eqb i i0); [discriminate | reflexivity]. }
      lia.
    + assert (Hi : ev = TaskStep i).
      { destruct ev; simpl in Hev; try discriminate.
        destruct (Nat.eqb i i0) eqn:E; [| discriminate].
        apply Nat.eqb_eq in E. subst. reflexivity. }
      subst ev. pose proof (step_own_thread sys i t Ht) as H1.
      destruct (IH (step cfg sys (TaskStep i)) i _ H1) as (t' & A & B).
      exists t'. split; [exact A |].
      pose proof (task_step_fuel t (store sys)) as F.
      simpl. rewrite Nat.eqb_refl. lia.
Qed.

(** X18. Every sequencer thread comes to an end, whatever else goes on.  A
    thread that owes [w] servo writes and has [k] instructions left is
    finished once it has been scheduled [w + 3k] times, however its steps
    are interleaved with requests, worker steps and other threads, and
    whether the stop flag is set or not. *)
Theorem thread_finishes (evs : list event) (sys : System) (i : nat) (t : task) :
  tasks sys !! i = Some t ->
  (fuel t <= task_steps_in i evs)%nat ->
  tasks (run cfg evs sys) !! i = Some (thread []).
Proof.
  intros Ht Hfuel.
  destruct (run_spends_fuel evs sys i t Ht) as (t' & A & B).
  rewrite A. f_equal. apply fuel_zero. lia.
Qed.

Lemma run_alone_step n t s :
  run_alone cfg (S n) t s
  = run_alone cfg n (snd (fst (task_step cfg t s))) (fst (fst (task_step cfg t s))).
Proof. simpl. destruct (task_step cfg t s) as [[s1 t1] new]. reflexivity. Qed.

Lemma run_alone_add n m : forall t s,
  run_alone cfg (n + m) t s
  = run_alone cfg m (snd (run_alone cfg n t s)) (fst (run_alone cfg n t s)).
Proof.
  induction n as [| n IH]; intros t s; [reflexivity |].
  simpl. destruct (task_step cfg t s) as [[s1 t1] new]. apply IH.
Qed.

Lemma blink_iteration r g b on_t off_t rest k s :
  STOP_ALL s = false ->
  run_alone cfg 5
    (thread (for_break ([led_solid r g b; ISleep on_t; led_off; ISleep off_t] :: rest) ++ k)) s
  = (call (ColorWipe (Rgb 0 0 0)) (call (ColorWipe (Rgb r g b)) s),
     thread (for_break rest ++ k)).
Proof.
  intros Hs. rewrite run_alone_step, for_break_enters_body by exact Hs.
  reflexivity.
Qed.

(** X19. A blink effect that is not stopped runs to its end in five steps
    per blink: it wipes the LEDs with the colour and then with black once
    per blink, in that order and nothing else, so that it ends with the LEDs
    off, and it changes nothing else in the shared state. *)
Theorem blink_runs_to_completion (r g b : Z) (times : nat) (on_t off_t : Z) (s : Store) :
  STOP_ALL s = false ->
  let blink := fun x => call (ColorWipe (Rgb 0 0 0)) (call (ColorWipe (Rgb r g b)) x) in
  run_alone cfg (5 * times) (thread (_blink r g b times on_t off_t)) s
  = (Nat.iter times blink s, thread []) /\
  hw (Nat.iter times blink s)
  = hw s ++ concat (replicate times [ColorWipe (Rgb r g b); ColorWipe (Rgb 0 0 0)]).
Proof.
  intros Hs blink. split.
  - revert s Hs. unfold _blink.
    induction times as [| n IH]; intros s Hs; [reflexivity |].
    replace (5 * S n)%nat with (5 + 5 * n)%nat by lia.
    change (replicate (S n) [led_solid r g b; ISleep on_t; led_off; ISleep off_t])
      with ([led_solid r g b; ISleep on_t; led_off; ISleep off_t]
              :: replicate n [led_solid r g b; ISleep on_t; led_off; ISleep off_t]).
    pose proof (blink_iteration r g b on_t off_t
                  (replicate n [led_solid r g b; ISleep on_t; led_off; ISleep off_t])
                  [] s Hs) as E.
    rewrite !app_nil_r in E.
    rewrite run_alone_add, E. simpl fst. simpl snd.
    rewrite IH by exact Hs. rewrite Nat.iter_succ_r. reflexivity.
  - clear Hs. revert s. induction times as [| n IH]; intros s.
    + simpl. rewrite app_nil_r. reflexivity.
    + rewrite Nat.iter_succ_r, IH. unfold blink. simpl.
      rewrite <- !app_assoc. reflexivity.
Qed.

End Threads.

Lemma thread_finishes_witness :
  let sys := step default_config (init_system default_config) (BuzzerReq "pulse") in
  let evs := [TaskStep 0; StopAllReq; TaskStep 0; WorkerStep false; TaskStep 0;
              TaskStep 0; TaskStep 0; TaskStep 0; TaskStep 0; TaskStep 0; TaskStep 0] in
  tasks sys !! 0%nat = Some (thread (_run_buzzer 200)) /\
  (fuel (thread (_run_buzzer 200)) <= task_steps_in 0 evs)%nat /\
  tasks (run default_config evs sys) !! 0%nat = Some (thread []).
Proof.
  assert (Hf : (fuel (thread (_run_buzzer 200))
                <= task_steps_in 0
                     [TaskStep 0; StopAllReq; TaskStep 0; WorkerStep false; TaskStep 0;
                      TaskStep 0; TaskStep 0; TaskStep 0; TaskStep 0; TaskStep 0;
                      TaskStep 0])%nat) by (vm_compute; lia).
  split; [reflexivity | split; [exact Hf |]].
  exact (thread_finishes default_config _
           (step default_config (init_system default_config) (BuzzerReq "pulse"))
           0%nat (thread (_run_buzzer 200)) eq_refl Hf).
Defined.

Lemma blink_runs_to_completion_witness :
  STOP_ALL (init_store default_config) = false /\
  hw (fst (run_alone default_config 15 (thread (_blink 0 255 0 3 200 150))
             (init_store default_config)))
  = hw (init_store default_config)
    ++ [ColorWipe (Rgb 0 255 0); ColorWipe (Rgb 0 0 0);
        ColorWipe (Rgb 0 255 0); ColorWipe (Rgb 0 0 0);
        ColorWipe (Rgb 0 255 0); ColorWipe (Rgb 0 0 0)].
Proof.
  split; [reflexivity |].
  destruct (blink_runs_to_completion default_config 0 255 0 3 200 150
              (init_store default_config) eq_refl) as [E H].
  change (5 * 3)%nat with 15%nat in E. rewrite E. exact H.
Defined.

(** ** What the slot can hold *)

Section Slot.

Context (cfg : Config).

Lemma cmds_known_in cmd :
  existsb (String.eqb cmd) known_cmds = true -> In cmd known_cmds.
Proof.
  intros H. apply existsb_exists in H. destruct H as (x & Hin & E).
  apply String.eqb_eq in E. subst x. exact Hin.
Qed.

Lemma forallb_drop {A} (f : A -> bool) n : forall l,
  forallb f l = true -> forallb f (drop n l) = true.
Proof.
  induction n as [| n IH]; intros l H; [rewrite drop_0; exact H |].
  destruct l as [| a l]; [reflexivity |]. simpl in *.
  apply andb_true_iff in H. apply IH, H.
Qed.

Lemma led_set_known mode r g b : cmds_known (led_set mode r g b) = true.
Proof. unfold led_set. split_chain; vm_compute; reflexivity. Qed.

Lemma _run_known name : forallb cmds_known (_run name) = true.
Proof. unfold _run. split_chain; vm_compute; reflexivity. Qed.

Lemma run_action_one_leg_call raises cmd s :
  In cmd known_cmds ->
  exists c, leg_call c = true /\ hw (fst (run_action raises cmd s)) = hw s ++ [c].
Proof.
  unfold known_cmds. simpl. intros H.
  repeat (destruct H as [<- | H];
          [eexists; split; [| unfold run_action; simpl; reflexivity]; reflexivity |]).
  destruct H.
Qed.

Lemma exec_instr_known i k s :
  cmds_known i = true -> forallb cmds_known k = true ->
  match current_cmd s with Some c => In c known_cmds | None => True end ->
  match current_cmd (fst (fst (exec_instr cfg i k s))) with
  | Some c => In c known_cmds
  | None => True
  end /\
  forallb cmds_known (script (snd (fst (exec_instr cfg i k s)))) = true /\
  Forall (fun t => forallb cmds_known (script t) = true) (snd (exec_instr cfg i k s)).
Proof.
  intros Hi Hk Hs.
  destruct i as [ms | c | on | cmd | pan tilt | body | n |]; simpl.
  - split; [exact Hs | split; [exact Hk | constructor]].
  - split; [exact Hs | split; [exact Hk | constructor]].
  - split; [exact Hs | split; [exact Hk | constructor]].
  - split; [apply cmds_known_in; exact Hi | split; [exact Hk | constructor]].
  - unfold pt_to. destruct pan, tilt; simpl;
      (split; [exact Hs | split; [exact Hk | constructor]]).
  - split; [exact Hs | split; [exact Hk |]].
    apply Forall_cons. split; [exact Hi | constructor].
  - split; [exact Hs | split; [| constructor]].
    destruct (STOP_ALL s); [apply forallb_drop |]; exact Hk.
  - split; [exact Hs | split; [exact Hk | constructor]].
Qed.

Lemma step_commands_known sys ev :
  commands_known sys -> commands_known (step cfg sys ev).
Proof.
  intros (Hs & Hw & Ht). unfold commands_known.
  destruct ev as [key | | cmd n | mode r g b | mode | name | raises | i].
  - simpl. split; [| split; assumption].
    unfold cmd_route. destruct (map_key_to_cmd key) as [[c |] msg] eqn:E; simpl.
    + eapply map_key_to_cmd_known. exact E.
    + exact Hs.
  - simpl. split; [exact I | split; assumption].
  - simpl. split; [| split; assumption].
    destruct (handle_pan_tilt_cases cfg cmd n (store sys))
      as [[_ E] | [_ (pan & tilt & E)]]; rewrite E; [exact Hs |].
    destruct (pan_tilt_apply_fields cfg pan tilt (store sys)) as (_ & _ & _ & _ & A & _).
    rewrite A. exact Hs.
  - unfold step, led_route.
    pose proof (exec_instr_known (led_set mode r g b) [] (store sys)
                  (led_set_known mode r g b) eq_refl Hs) as (A & _ & C).
    destruct (exec_instr cfg (led_set mode r g b) [] (store sys)) as [[s1 t1] new].
    simpl in *. split; [exact A | split; [exact Hw |]].
    apply Forall_app. split; assumption.
  - unfold step, buzzer_route. split_chain; simpl; split; try assumption;
      split; try assumption.
    apply Forall_app. split; [exact Ht | repeat constructor].
  - unfold step, preset_route. destruct (known_preset name); simpl;
      split; try assumption; split; try assumption.
    apply Forall_app. split; [exact Ht |]. repeat constructor. apply _run_known.
  - rewrite step_worker_store, step_worker_phase.
    assert (Htasks : tasks (step cfg sys (WorkerStep raises)) = tasks sys).
    { simpl. destruct (worker_step raises (store sys) (worker sys)). reflexivity. }
    rewrite Htasks. split; [| split; [| exact Ht]].
    + destruct (worker sys) as [| c | c | |]; simpl; try exact Hs.
      * destruct (thread_running (store sys)); simpl; [| exact Hs].
        destruct (STOP_ALL (store sys)); [destruct raises; simpl; [exact Hs | exact I] |].
        destruct (current_cmd (store sys)) eqn:Ec; simpl; rewrite Ec; exact Hs.
      * pose proof (run_action_current_cmd raises c (store sys)) as E.
        destruct (run_action raises c (store sys)). simpl in E |- *. rewrite E. exact Hs.
      * destruct (slot_is c (store sys)); simpl; [exact I | exact Hs].
    + destruct (worker sys) as [| c | c | |]; simpl; try exact I.
      * destruct (thread_running (store sys)); simpl; [| exact I].
        destruct (STOP_ALL (store sys)); [destruct raises; exact I |].
        destruct (current_cmd (store sys)) eqn:Ec; simpl; [exact Hs | exact I].
      * destruct (run_action raises c (store sys)) as [s1 exn]. simpl.
        destruct exn; [exact I | exact Hw].
  - unfold step. destruct (tasks sys !! i) as [t |] eqn:Et;
      [| split; [exact Hs | split; assumption]].
    pose proof (Forall_lookup_1 _ _ _ _ Ht Et) as Hti. simpl in Hti.
    unfold task_step. destruct (writes t) as [| [channel angle] ws].
    + destruct (script t) as [| ins k] eqn:Esc.
      * simpl. split; [exact Hs | split; [exact Hw |]].
        apply Forall_app. split; [| constructor].
        apply Forall_insert; [exact Ht |]. rewrite Esc. reflexivity.
      * simpl in Hti. apply andb_true_iff in Hti. destruct Hti as [Hi Hk].
        pose proof (exec_instr_known ins k (store sys) Hi Hk Hs) as (A & B & C).
        destruct (exec_instr cfg ins k (store sys)) as [[s1 t1] new]. simpl in *.
        split; [exact A | split; [exact Hw |]].
        apply Forall_app. split; [| exact C].
        apply Forall_insert; [exact Ht | exact B].
    + simpl. destruct (guarded_keeps channel angle (store sys)) as (_ & _ & E & _).
      rewrite E. split; [exact Hs | split; [exact Hw |]].
      apply Forall_app. split; [| constructor].
      apply Forall_insert; [exact Ht | exact Hti].
Qed.

(** X20. In every state the process can reach, the command slot is empty or
    holds one of the ten command names, and so does the local the worker
    works from; therefore a worker that has read a command always makes
    exactly one gait or pose call for it. *)
Theorem only_known_commands_reach_the_worker (evs : list event) :
  let sys := run cfg evs (init_system cfg) in
  commands_known sys /\
  (forall cmd raises, worker sys = Holding cmd ->
     exists c, leg_call c = true /\
               hw (store (step cfg sys (WorkerStep raises))) = hw (store sys) ++ [c]).
Proof.
  cbv zeta.
  assert (H : commands_known (run cfg evs (init_system cfg))).
  { assert (H0 : commands_known (init_system cfg))
      by (unfold commands_known; simpl; repeat split; constructor).
    generalize dependent (init_system cfg).
    induction evs as [| ev evs IH]; intros sys H0; simpl; [exact H0 |].
    apply IH, step_commands_known, H0. }
  split; [exact H |].
  intros cmd raises Hw. destruct H as (_ & Hk & _). rewrite Hw in Hk.
  rewrite step_worker_store, Hw. simpl.
  pose proof (run_action_one_leg_call raises cmd (store (run cfg evs (init_system cfg))) Hk)
    as (c & Hc & E).
  destruct (run_action raises cmd _) as [s1 exn]. exists c. split; assumption.
Qed.

End Slot.

(** ** Effects that end in the dark *)

Section Dark.

Context (cfg : Config).

Lemma light_script_app a : forall b,
  light_script a = true -> light_script b = true -> light_script (a ++ b) = true.
Proof.
  induction a as [| i a IH]; intros b Ha Hb; [exact Hb |].
  destruct i; simpl in *; try discriminate; try (apply IH; assumption).
  apply andb_true_iff in Ha. destruct Ha as [Hn Ha].
  apply andb_true_iff. split; [| apply IH; assumption].
  apply Nat.leb_le in Hn. apply Nat.leb_le. rewrite length_app. lia.
Qed.

Lemma light_script_for_break bodies :
  Forall (fun b => light_script b = true) bodies ->
  light_script (for_break bodies) = true.
Proof.
  induction 1 as [| b rest Hb Hrest IH]; [reflexivity |].
  simpl. apply andb_true_iff. split.
  - apply Nat.leb_le. rewrite length_app. lia.
  - apply light_script_app; assumption.
Qed.

Lemma light_script_concat bodies :
  Forall (fun b => light_script b = true) bodies ->
  light_script (concat bodies) = true.
Proof.
  induction 1 as [| b rest Hb Hrest IH]; [reflexivity |].
  simpl. apply light_script_app; assumption.
Qed.

Lemma light_script_drop n : forall sc,
  light_script sc = true -> light_script (drop n sc) = true.
Proof.
  induction n as [| n IH]; intros sc H; [rewrite drop_0; exact H |].
  destruct sc as [| i k]; [reflexivity |]. simpl. apply IH.
  destruct i; simpl in H; try discriminate; try exact H.
  apply andb_true_iff in H. apply H.
Qed.

Lemma Forall_replicate_light n b :
  light_script b = true -> Forall (fun x => light_script x = true) (replicate n b).
Proof. intros H. induction n; simpl; constructor; assumption. Qed.

Lemma breathe_light r g b cycles :
  exists sc, _breathe r g b cycles = sc ++ [led_off] /\ light_script sc = true.
Proof.
  eexists. split; [reflexivity |].
  apply light_script_for_break, Forall_replicate_light, light_script_for_break.
  apply List.Forall_forall. intros x Hx. apply in_map_iff in Hx.
  destruct Hx as (lvl & <- & _). reflexivity.
Qed.

Lemma police_light cycles :
  exists sc, _police cycles = sc ++ [led_off] /\ light_script sc = true.
Proof.
  eexists. split; [reflexivity |].
  apply light_script_for_break, Forall_replicate_light. reflexivity.
Qed.

Lemma rainbow_light cycles steps :
  exists sc, _rainbow cycles steps = sc ++ [led_off] /\ light_script sc = true.
Proof.
  eexists. split; [reflexivity |].
  apply light_script_concat, Forall_replicate_light, light_script_for_break.
  apply List.Forall_forall. intros x Hx. apply in_map_iff in Hx.
  destruct Hx as (k & <- & _). reflexivity.
Qed.

Lemma run_alone_finished n s : run_alone cfg n (thread []) s = (s, thread []).
Proof. induction n as [| n IH]; [reflexivity | exact IH]. Qed.

(** One step of a light script that still has its closing [led_off] ahead. *)
Lemma light_step i k s :
  light_script (i :: k) = true ->
  exists s1 k1,
    task_step cfg (thread ((i :: k) ++ [led_off])) s = (s1, thread (k1 ++ [led_off]), []) /\
    light_script k1 = true /\ (length k1 <= length k)%nat /\
    extends (fun c => exists col, c = ColorWipe col) s s1.
Proof.
  intros H. destruct i; simpl in H; try discriminate.
  - exists s, k. repeat split; try assumption; try lia. apply extends_refl.
  - exists (call (ColorWipe c) s), k. repeat split; try assumption; try lia.
    eapply extends_one; [reflexivity | eauto].
  - apply andb_true_iff in H. destruct H as [Hn Hk]. apply Nat.leb_le in Hn.
    unfold task_step. simpl. destruct (STOP_ALL s).
    + exists s, (drop n k). rewrite drop_app_le by exact Hn.
      repeat split; [apply light_script_drop; exact Hk | rewrite length_drop; lia
                    | apply extends_refl].
    + exists s, k. repeat split; try assumption; try lia. apply extends_refl.
Qed.

Lemma light_run m : forall sc s,
  light_script sc = true -> (length sc <= m)%nat ->
  exists s' l,
    run_alone cfg (S m) (thread (sc ++ [led_off])) s = (s', thread []) /\
    hw s' = hw s ++ l ++ [ColorWipe (Rgb 0 0 0)] /\
    Forall (fun c => exists col, c = ColorWipe col) l.
Proof.
  induction m as [| m IH]; intros sc s Hl Hlen.
  - destruct sc; [| simpl in Hlen; lia].
    exists (call (ColorWipe (Rgb 0 0 0)) s), []. repeat split. constructor.
  - destruct sc as [| i k].
    + exists (call (ColorWipe (Rgb 0 0 0)) s), []. rewrite run_alone_step.
      cbn [app task_step thread writes script exec_instr led_off fst snd].
      rewrite run_alone_finished. repeat split. constructor.
    + destruct (light_step i k s Hl) as (s1 & k1 & E & Hk1 & Hlen1 & (l0 & Ehw & Hl0)).
      simpl in Hlen.
      destruct (IH k1 s1 Hk1 ltac:(lia)) as (s' & l & A & B & C).
      exists s', (l0 ++ l). rewrite run_alone_step, E. cbn [fst snd].
      split; [exact A | split].
      * rewrite B, Ehw, <- !app_assoc. reflexivity.
      * apply Forall_app. split; assumption.
Qed.

(** X21. The breathe, police and rainbow effects always end in the dark.
    Run to its end, with the stop flag set or clear, each of them makes only
    LED calls and the last one wipes the LEDs with black; this holds for any
    number of cycles. *)
Theorem effects_end_dark (r g b : Z) (cycles steps : nat) (s : Store) (sc : list instr) :
  sc = _breathe r g b cycles \/ sc = _police cycles \/ sc = _rainbow cycles steps ->
  exists l,
    snd (run_alone cfg (length sc) (thread sc) s) = thread [] /\
    hw (fst (run_alone cfg (length sc) (thread sc) s))
    = hw s ++ l ++ [ColorWipe (Rgb 0 0 0)] /\
    Forall (fun c => exists col, c = ColorWipe col) l.
Proof.
  intros H.
  assert (Hsc : exists sc', sc = sc' ++ [led_off] /\ light_script sc' = true).
  { destruct H as [-> | [-> | ->]];
      [apply breathe_light | apply police_light | apply rainbow_light]. }
  destruct Hsc as (sc' & -> & Hl).
  rewrite length_app. simpl length.
  replace (length sc' + 1)%nat with (S (length sc')) by lia.
  destruct (light_run (length sc') sc' s Hl ltac:(lia)) as (s' & l & A & B & C).
  exists l. rewrite A. cbn [fst snd]. split; [reflexivity | split; assumption].
Qed.

Lemma handle_pan_tilt_target cmd n s :
  cmd <> "relax" ->
  exists pan tilt,
    handle_pan_tilt cfg cmd n s = pan_tilt_apply cfg pan tilt s /\
    handle_pan_tilt cfg cmd n (set_STOP_ALL false s)
    = pan_tilt_apply cfg pan tilt (set_STOP_ALL false s).
Proof.
  intros Hne. unfold handle_pan_tilt. cbv zeta.
  change (pan_angle (set_STOP_ALL false s)) with (pan_angle s).
  change (tilt_angle (set_STOP_ALL false s)) with (tilt_angle s).
  destruct (String.eqb cmd "center"); [eauto |].
  destruct (String.eqb cmd "relax") eqn:E.
  { apply String.eqb_eq in E. contradiction. }
  split_chain; eauto.
Qed.

(** X22. The stop gate hides nothing from the answer of [/pt].  With the
    gate closed a request other than ["relax"] makes no hardware call, but
    it stores and returns the same angles as it would with the gate open, so
    the stored angles go on moving while the servos stay where they are. *)
Theorem pan_tilt_blind_to_gate (cmd : string) (n : Z) (s : Store) :
  STOP_ALL s = true -> cmd <> "relax" ->
  hw (fst (handle_pan_tilt cfg cmd n s)) = hw s /\
  snd (handle_pan_tilt cfg cmd n s) = snd (handle_pan_tilt cfg cmd n (set_STOP_ALL false s)) /\
  (pan_angle (fst (handle_pan_tilt cfg cmd n s)),
   tilt_angle (fst (handle_pan_tilt cfg cmd n s)))
  = snd (handle_pan_tilt cfg cmd n s).
Proof.
  intros Hs Hne.
  destruct (handle_pan_tilt_target cmd n s Hne) as (pan & tilt & E & E').
  rewrite E, E'.
  destruct (pan_tilt_apply_fields cfg pan tilt s) as (_ & A & B & _).
  rewrite A, B. rewrite pan_tilt_apply_closed by exact Hs.
  repeat split.
Qed.

End Dark.

Lemma effects_end_dark_witness :
  _police 6 = _police 6 /\
  snd (run_alone default_config (length (_police 6)) (thread (_police 6))
         (fst (stopall_route (init_store default_config)))) = thread [].
Proof.
  split; [reflexivity |].
  destruct (effects_end_dark default_config 0 0 0 6 0
              (fst (stopall_route (init_store default_config))) (_police 6)
              (or_intror (or_introl eq_refl))) as (l & H & _).
  exact H.
Defined.

Lemma pan_tilt_blind_to_gate_witness :
  let s := fst (stopall_route (init_store default_config)) in
  STOP_ALL s = true /\ "pan_left" <> "relax" /\
  hw (fst (handle_pan_tilt default_config "pan_left" 5 s)) = hw s.
Proof.
  assert (Hne : "pan_left" <> "relax") by discriminate.
  split; [reflexivity | split; [exact Hne |]].
  exact (proj1 (pan_tilt_blind_to_gate default_config "pan_left" 5
                  (fst (stopall_route (init_store default_config))) eq_refl Hne)).
Defined.

(** * Requests and the phases of the worker *)

(** ** A command in the slot, by the phase of the worker *)

Lemma worker_reads s cmd :
  thread_running s = true -> STOP_ALL s = false -> current_cmd s = Some cmd ->
  worker_step false s AtLoop = (s, Holding cmd).
Proof. intros Hr Hs Hc. simpl. rewrite Hr, Hs, Hc. reflexivity. Qed.

Lemma worker_acts s cmd :
  worker_step false s (Holding cmd) = (fst (run_action false cmd s), Clearing cmd).
Proof.
  simpl. pose proof (run_action_no_exception cmd s) as H.
  destruct (run_action false cmd s) as [s1 exn]. simpl in *. subst exn. reflexivity.
Qed.

Lemma worker_clears_equal raises s cmd :
  current_cmd s = Some cmd ->
  worker_step raises s (Clearing cmd) = (set_current_cmd None s, AtLoop).
Proof. intros H. simpl. unfold slot_is. rewrite H, String.eqb_refl. reflexivity. Qed.

Lemma worker_keeps_other raises s cmd other :
  current_cmd s = Some other -> cmd <> other ->
  worker_step raises s (Clearing cmd) = (s, AtLoop).
Proof.
  intros H Hne. simpl. unfold slot_is. rewrite H.
  assert (E : String.eqb other cmd = false) by (apply String.eqb_neq; congruence).
  rewrite E. reflexivity.
Qed.

Lemma worker_steps_idle n s :
  thread_running s = true -> STOP_ALL s = false -> current_cmd s = None ->
  worker_steps n s AtLoop = (s, AtLoop).
Proof.
  intros Hr Hs Hc. induction n as [| n IH]; [reflexivity |].
  simpl. rewrite Hr, Hs, Hc. simpl. exact IH.
Qed.

Lemma worker_steps_succ n s w :
  worker_steps (S n) s w
  = worker_steps n (fst (worker_step false s w)) (snd (worker_step false s w)).
Proof. simpl. destruct (worker_step false s w). reflexivity. Qed.

Lemma worker_steps_add n m : forall s w,
  worker_steps (n + m) s w
  = worker_steps m (fst (worker_steps n s w)) (snd (worker_steps n s w)).
Proof.
  induction n as [| n IH]; intros s w; [reflexivity |].
  simpl. destruct (worker_step false s w) as [s1 w1]. apply IH.
Qed.

(** What becomes of a command waiting in the slot of a running, unstopped
    robot, for each place the worker can be in. *)
Lemma pending_by_phase s cmd :
  thread_running s = true -> STOP_ALL s = false -> current_cmd s = Some cmd ->
  let done := set_current_cmd None (fst (run_action false cmd s)) in
  worker_steps 3 s AtLoop = (done, AtLoop) /\
  worker_steps 2 s (Holding cmd) = (done, AtLoop) /\
  (forall c, c <> cmd -> worker_steps 4 s (Clearing c) = (done, AtLoop)) /\
  (forall c, c <> cmd ->
     worker_steps 5 s (Holding c)
     = (set_current_cmd None (fst (run_action false cmd (fst (run_action false c s)))),
        AtLoop)) /\
  (forall n, worker_steps (S n) s (Clearing cmd) = (set_current_cmd None s, AtLoop)).
Proof.
  intros Hr Hs Hc done.
  assert (H2 : worker_steps 2 s (Holding cmd) = (done, AtLoop)).
  { rewrite worker_steps_succ, worker_acts. cbn [fst snd].
    rewrite worker_steps_succ, worker_clears_equal
      by (rewrite run_action_current_cmd; exact Hc).
    reflexivity. }
  assert (H3 : worker_steps 3 s AtLoop = (done, AtLoop)).
  { rewrite worker_steps_succ, (worker_reads s cmd Hr Hs Hc). exact H2. }
  split; [exact H3 | split; [exact H2 | split; [| split]]].
  - intros c Hne. rewrite worker_steps_succ, (worker_keeps_other false s c cmd Hc Hne).
    exact H3.
  - intros c Hne. rewrite worker_steps_succ, worker_acts. cbn [fst snd].
    destruct (run_action_flags false c s) as (F1 & F2 & _).
    pose proof (run_action_current_cmd false c s) as F3.
    rewrite worker_steps_succ,
      (worker_keeps_other false (fst (run_action false c s)) c cmd)
      by (congruence || exact Hne).
    cbn [fst snd].
    rewrite worker_steps_succ, (worker_reads _ cmd) by congruence. cbn [fst snd].
    rewrite worker_steps_succ, worker_acts. cbn [fst snd].
    rewrite worker_steps_succ, worker_clears_equal
      by (rewrite run_action_current_cmd; congruence).
    reflexivity.
  - intros n. rewrite worker_steps_succ, (worker_clears_equal false s cmd Hc).
    cbn [fst snd]. apply worker_steps_idle; [exact Hr | exact Hs | reflexivity].
Qed.

Lemma run_worker_steps (cfg : Config) n : forall sys,
  store (run cfg (replicate n (WorkerStep false)) sys)
  = fst (worker_steps n (store sys) (worker sys)) /\
  worker (run cfg (replicate n (WorkerStep false)) sys)
  = snd (worker_steps n (store sys) (worker sys)).
Proof.
  induction n as [| n IH]; intros sys; [split; reflexivity |].
  change (run cfg (replicate (S n) (WorkerStep false)) sys)
    with (run cfg (replicate n (WorkerStep false)) (step cfg sys (WorkerStep false))).
  destruct (IH (step cfg sys (WorkerStep false))) as [A B].
  rewrite A, B, step_worker_store, step_worker_phase, worker_steps_succ.
  split; reflexivity.
Qed.

(** C1, as the code has it. Two [/cmd] requests with known keys leave only
    the second command in the slot and make no hardware call.  What the
    running worker then does depends on where it stands.  At its loop test,
    or holding or finishing a command of another name, it performs the
    action of the second command exactly once and empties the slot; the
    first request is never acted on.  Holding a command of the same name as
    the second, it performs that action once and empties the slot.
    Finishing a command of the same name, its closing test finds the slot
    equal to its local and empties it, and the second request is never acted
    on either. *)
Theorem latest_command_wins_by_phase (cfg : Config) (sys : System)
    (k1 k2 c1 c2 m1 m2 : string) :
  map_key_to_cmd k1 = (Some c1, m1) ->
  map_key_to_cmd k2 = (Some c2, m2) ->
  thread_running (store sys) = true ->
  let sys2 := run cfg [CmdReq k1; CmdReq k2] sys in
  let after := fun n => run cfg (replicate n (WorkerStep false)) sys2 in
  let done := set_current_cmd None (fst (run_action false c2 (store sys2))) in
  (current_cmd (store sys2) = Some c2 /\ hw (store sys2) = hw (store sys) /\
   worker sys2 = worker sys) /\
  (exists c, hw done = hw (store sys) ++ [c]) /\
  (worker sys = AtLoop -> store (after 3%nat) = done /\ worker (after 3%nat) = AtLoop) /\
  (worker sys = Holding c2 ->
   store (after 2%nat) = done /\ worker (after 2%nat) = AtLoop) /\
  (forall c, worker sys = Clearing c -> c <> c2 ->
   store (after 4%nat) = done /\ worker (after 4%nat) = AtLoop) /\
  (forall c, worker sys = Holding c -> c <> c2 ->
   store (after 5%nat)
   = set_current_cmd None
       (fst (run_action false c2 (fst (run_action false c (store sys2))))) /\
   worker (after 5%nat) = AtLoop) /\
  (worker sys = Clearing c2 ->
   forall n, store (after (S n)) = set_current_cmd None (store sys2) /\
             worker (after (S n)) = AtLoop /\
             hw (store (after (S n))) = hw (store sys)).
Proof.
  intros H1 H2 Hr sys2 after done.
  assert (Es : store sys2 = fst (cmd_route k2 (fst (cmd_route k1 (store sys)))))
    by reflexivity.
  assert (Ew : worker sys2 = worker sys) by reflexivity.
  assert (Hc : current_cmd (store sys2) = Some c2).
  { rewrite Es. unfold cmd_route. rewrite H1, H2. reflexivity. }
  assert (Hhw : hw (store sys2) = hw (store sys)).
  { rewrite Es. unfold cmd_route. rewrite H1, H2. reflexivity. }
  assert (Hrun : thread_running (store sys2) = true).
  { rewrite Es. unfold cmd_route. rewrite H1, H2. exact Hr. }
  assert (Hs : STOP_ALL (store sys2) = false).
  { rewrite Es. unfold cmd_route. rewrite H1, H2. reflexivity. }
  destruct (pending_by_phase (store sys2) c2 Hrun Hs Hc) as (P1 & P2 & P3 & P4 & P5).
  assert (Hafter : forall n,
             store (after n) = fst (worker_steps n (store sys2) (worker sys)) /\
             worker (after n) = snd (worker_steps n (store sys2) (worker sys))).
  { intros n. unfold after. rewrite <- Ew. apply run_worker_steps. }
  split; [repeat split; assumption |].
  split.
  { destruct (run_action_one_call false c2 (store sys2) (map_key_to_cmd_known _ _ _ H2))
      as [c E].
    exists c. unfold done.
    change (hw (fst (run_action false c2 (store sys2))) = hw (store sys) ++ [c]).
    rewrite E, Hhw. reflexivity. }
  split; [| split; [| split; [| split]]].
  - intros Hw. destruct (Hafter 3%nat) as [A B]. rewrite A, B, Hw, P1. split; reflexivity.
  - intros Hw. destruct (Hafter 2%nat) as [A B]. rewrite A, B, Hw, P2. split; reflexivity.
  - intros c Hw Hne. destruct (Hafter 4%nat) as [A B].
    rewrite A, B, Hw, (P3 c Hne). split; reflexivity.
  - intros c Hw Hne. destruct (Hafter 5%nat) as [A B].
    rewrite A, B, Hw, (P4 c Hne). split; reflexivity.
  - intros Hw n. destruct (Hafter (S n)) as [A B].
    rewrite A, B, Hw, (P5 n). repeat split. exact Hhw.
Qed.

Lemma latest_command_wins_by_phase_witness :
  map_key_to_cmd "w" = (Some "fwd", "Forward") /\
  map_key_to_cmd "a" = (Some "left", "Left") /\
  thread_running (store (init_system default_config)) = true /\
  worker (init_system default_config) = AtLoop /\
  hw (store (run default_config
               [CmdReq "w"; CmdReq "a"; WorkerStep false; WorkerStep false; WorkerStep false]
               (init_system default_config)))
  = hw (init_store default_config) ++ [RunGait ["CMD_MOVE"; "1"; "-35"; "0"; "10"; "0"]].
Proof.
  split; [reflexivity | split; [reflexivity | split; [reflexivity | split; [reflexivity |]]]].
  destruct (latest_command_wins_by_phase default_config (init_system default_config)
              "w" "a" "fwd" "left" "Forward" "Left" eq_refl eq_refl eq_refl)
    as (_ & _ & H & _).
  destruct (H eq_refl) as [E _].
  change (run default_config
            [CmdReq "w"; CmdReq "a"; WorkerStep false; WorkerStep false; WorkerStep false]
            (init_system default_config))
    with (run default_config (replicate 3 (WorkerStep false))
            (run default_config [CmdReq "w"; CmdReq "a"] (init_system default_config))).
  rewrite E. reflexivity.
Defined.

(** C1, the claim as stated fails: the worker has made the strafe-left call
    and has not yet reached its closing test when forward and then
    strafe-left are requested; the closing test finds ["left"] in the slot
    and empties it, and neither request is ever acted on. *)
Lemma later_command_lost_to_closing_test :
  let sys0 := run default_config [CmdReq "a"; WorkerStep false; WorkerStep false]
                (init_system default_config) in
  let sys2 := run default_config [CmdReq "w"; CmdReq "a"] sys0 in
  let sys3 := run default_config (replicate 7 (WorkerStep false)) sys2 in
  worker sys0 = Clearing "left" /\
  hw (store sys0)
  = hw (init_store default_config) ++ [RunGait ["CMD_MOVE"; "1"; "-35"; "0"; "10"; "0"]] /\
  current_cmd (store sys2) = Some "left" /\
  current_cmd (store sys3) = None /\
  worker sys3 = AtLoop /\
  hw (store sys3) = hw (store sys0).
Proof. vm_compute. repeat split; reflexivity. Qed.

(** X5. Resume after [/stopall], by where the running worker stands when
    [/stopall] and then a [/cmd] request with an accepted key arrive.  The
    requests clear the stop flag, fill the slot and add the [relax] of the
    stop to the trace.  A worker at its loop test, or finishing a command of
    another name, then makes exactly one gait or pose call for the new
    command, right after that [relax]; a worker finishing a command of the
    same name empties the slot in its closing test, and no call follows the
    [relax]. *)
Theorem resume_after_stop_by_phase (cfg : Config) (sys : System) (key cmd msg : string) :
  map_key_to_cmd key = (Some cmd, msg) ->
  thread_running (store sys) = true ->
  let sys1 := run cfg [StopAllReq; CmdReq key] sys in
  let after := fun n => run cfg (replicate n (WorkerStep false)) sys1 in
  let done := set_current_cmd None (fst (run_action false cmd (store sys1))) in
  (STOP_ALL (store sys1) = false /\ current_cmd (store sys1) = Some cmd /\
   hw (store sys1) = hw (store sys) ++ [Relax] /\ worker sys1 = worker sys) /\
  (exists c, leg_call c = true /\ hw done = hw (store sys) ++ [Relax; c]) /\
  (worker sys = AtLoop -> store (after 3%nat) = done /\ worker (after 3%nat) = AtLoop) /\
  (forall c, worker sys = Clearing c -> c <> cmd ->
   store (after 4%nat) = done /\ worker (after 4%nat) = AtLoop) /\
  (worker sys = Clearing cmd ->
   forall n, current_cmd (store (after (S n))) = None /\
             worker (after (S n)) = AtLoop /\
             hw (store (after (S n))) = hw (store sys) ++ [Relax]).
Proof.
  intros Hk Hr sys1 after done.
  assert (Es : store sys1 = fst (cmd_route key (fst (stopall_route (store sys)))))
    by reflexivity.
  assert (Ew : worker sys1 = worker sys) by reflexivity.
  assert (Hc : current_cmd (store sys1) = Some cmd).
  { rewrite Es. unfold cmd_route. rewrite Hk. reflexivity. }
  assert (Hhw : hw (store sys1) = hw (store sys) ++ [Relax]).
  { rewrite Es. unfold cmd_route. rewrite Hk. reflexivity. }
  assert (Hrun : thread_running (store sys1) = true).
  { rewrite Es. unfold cmd_route. rewrite Hk. exact Hr. }
  assert (Hs : STOP_ALL (store sys1) = false).
  { rewrite Es. unfold cmd_route. rewrite Hk. reflexivity. }
  destruct (pending_by_phase (store sys1) cmd Hrun Hs Hc) as (P1 & _ & P3 & _ & P5).
  assert (Hafter : forall n,
             store (after n) = fst (worker_steps n (store sys1) (worker sys)) /\
             worker (after n) = snd (worker_steps n (store sys1) (worker sys))).
  { intros n. unfold after. rewrite <- Ew. apply run_worker_steps. }
  split; [repeat split; assumption |].
  split.
  { destruct (run_action_one_leg_call false cmd (store sys1)
                (map_key_to_cmd_known _ _ _ Hk)) as (c & Hleg & E).
    exists c. split; [exact Hleg |]. unfold done.
    change (hw (fst (run_action false cmd (store sys1))) = hw (store sys) ++ [Relax; c]).
    rewrite E, Hhw, <- app_assoc. reflexivity. }
  split; [| split].
  - intros Hw. destruct (Hafter 3%nat) as [A B]. rewrite A, B, Hw, P1. split; reflexivity.
  - intros c Hw Hne. destruct (Hafter 4%nat) as [A B].
    rewrite A, B, Hw, (P3 c Hne). split; reflexivity.
  - intros Hw n. destruct (Hafter (S n)) as [A B].
    rewrite A, B, Hw, (P5 n). repeat split. exact Hhw.
Qed.

Lemma resume_after_stop_by_phase_witness :
  map_key_to_cmd "w" = (Some "fwd", "Forward") /\
  thread_running (store (init_system default_config)) = true /\
  STOP_ALL (store (run default_config [StopAllReq; CmdReq "w"]
                     (init_system default_config))) = false.
Proof.
  split; [reflexivity | split; [reflexivity |]].
  destruct (resume_after_stop_by_phase default_config (init_system default_config)
              "w" "fwd" "Forward" eq_refl eq_refl) as ((H & _) & _).
  exact H.
Defined.

(** ** Who clears the stop flag, the unknown key left aside *)

(** C5, as the code has it. With the stop flag set: a [/cmd] request with
    an accepted key clears it, and a running worker that stands at its loop
    test then makes the one gait or pose call of the new command in its
    next pass and empties the slot; a [/preset] request with a name of the
    registry clears the flag as well; a [/pt] request leaves it set; and
    whenever a step leaves the flag cleared, that step was a [/cmd] request
    or a [/preset] request with a name of the registry, never a step of the
    worker, of a sequencer thread or of another request. *)
Theorem stop_flag_cleared_by_command_or_preset (cfg : Config) (sys : System) (ev : event) :
  STOP_ALL (store sys) = true ->
  (forall key, ev = CmdReq key -> In key known_keys ->
     STOP_ALL (store (step cfg sys ev)) = false) /\
  (forall key cmd msg, ev = CmdReq key -> map_key_to_cmd key = (Some cmd, msg) ->
     thread_running (store sys) = true -> worker sys = AtLoop ->
     let sys' := run cfg (replicate 3 (WorkerStep false)) (step cfg sys ev) in
     current_cmd (store sys') = None /\ worker sys' = AtLoop /\
     exists c, leg_call c = true /\ hw (store sys') = hw (store sys) ++ [c]) /\
  (forall name, ev = PresetReq name -> known_preset name = true ->
     STOP_ALL (store (step cfg sys ev)) = false) /\
  (forall cmd n, ev = PanTiltReq cmd n -> STOP_ALL (store (step cfg sys ev)) = true) /\
  (STOP_ALL (store (step cfg sys ev)) = false ->
   (exists key, ev = CmdReq key) \/
   (exists name, ev = PresetReq name /\ known_preset name = true)).
Proof.
  intros Hs. split; [| split; [| split; [| split]]].
  - intros key -> _. simpl. apply cmd_route_keeps.
  - intros key cmd msg -> Hk Hr Hw sys'.
    assert (Es : store (step cfg sys (CmdReq key)) = fst (cmd_route key (store sys)))
      by reflexivity.
    assert (Ew : worker (step cfg sys (CmdReq key)) = AtLoop) by exact Hw.
    assert (Hc : current_cmd (store (step cfg sys (CmdReq key))) = Some cmd).
    { rewrite Es. unfold cmd_route. rewrite Hk. reflexivity. }
    assert (Hhw : hw (store (step cfg sys (CmdReq key))) = hw (store sys)).
    { rewrite Es. unfold cmd_route. rewrite Hk. reflexivity. }
    assert (Hrun : thread_running (store (step cfg sys (CmdReq key))) = true).
    { rewrite Es. unfold cmd_route. rewrite Hk. exact Hr. }
    assert (Hf : STOP_ALL (store (step cfg sys (CmdReq key))) = false).
    { rewrite Es. unfold cmd_route. rewrite Hk. reflexivity. }
    destruct (pending_by_phase _ cmd Hrun Hf Hc) as (P1 & _).
    destruct (run_worker_steps cfg 3 (step cfg sys (CmdReq key))) as [A B].
    fold sys' in A, B. rewrite Ew, P1 in A, B. cbn [fst snd] in A, B.
    rewrite A, B. split; [reflexivity | split; [reflexivity |]].
    destruct (run_action_one_leg_call false cmd (store (step cfg sys (CmdReq key)))
                (map_key_to_cmd_known _ _ _ Hk)) as (c & Hleg & E).
    exists c. split; [exact Hleg |].
    change (hw (fst (run_action false cmd (store (step cfg sys (CmdReq key)))))
            = hw (store sys) ++ [c]).
    rewrite E, Hhw. reflexivity.
  - intros name -> Hk. unfold step, preset_route. rewrite Hk. reflexivity.
  - intros cmd n ->. apply step_keeps_gate_closed; [exact Hs | reflexivity].
  - intros Hclear. destruct (resumes ev) eqn:Hev.
    + destruct ev; simpl in Hev; try discriminate; eauto.
    + rewrite (step_keeps_gate_closed cfg sys ev Hs Hev) in Hclear. discriminate.
Qed.

Lemma stop_flag_cleared_by_command_or_preset_witness :
  let sys := step default_config (init_system default_config) StopAllReq in
  STOP_ALL (store sys) = true /\ In "w" known_keys /\
  STOP_ALL (store (step default_config sys (CmdReq "w"))) = false.
Proof.
  assert (Hin : In "w" known_keys) by (simpl; tauto).
  split; [reflexivity | split; [exact Hin |]].
  destruct (stop_flag_cleared_by_command_or_preset default_config
              (step default_config (init_system default_config) StopAllReq)
              (CmdReq "w") eq_refl) as (H & _).
  exact (H "w" eq_refl Hin).
Defined.

(** * The servo writes of this file *)

Section OwnWrites.

Context (cfg : Config).








End OwnWrites.




(** * How far a sequence runs once the stop flag is set *)

Lemma length_stop_costs sc : length (stop_costs sc) = S (length sc).
Proof. induction sc as [| i k IH]; [reflexivity |]. simpl. rewrite IH. reflexivity. Qed.







Section StopSequences.

Context (cfg : Config).




End StopSequences.

